(** * The perceptron notebook (notebooks/ann-introduction.ipynb)

    A shallow embedding of the three functions the notebook defines,
    [perceptron], [adjust_weights] and [train_perceptron], together with
    the properties stated about them.

    The notebook computes with Python numbers.  The functions are embedded
    once, over an interface [Num] of the operations they use, and the
    interface is instantiated twice:

    - [float_Num]: IEEE 754 binary64 with round-to-nearest-even, which is
      what Python's [float] and numpy's [float64] are; this is the arithmetic
      the notebook really runs;
    - [Q_Num]: exact rational arithmetic, the real-number reading of the
      same expressions.

    Properties that do not depend on arithmetic laws are proved for every
    instance; properties of concrete runs are evaluated on binary64;
    properties quantified over all weights, thresholds or learning rates
    are proved on binary64 too, from the specification of its operations
    (round to nearest, ties to even, with infinities and NaN), read as
    integer arithmetic in units of [2^-1074]. *)

From Stdlib Require Import ZArith QArith Qreduction Qround List Bool Lia Lqa.
From Stdlib Require Import PrimFloat Uint63 SpecFloat FloatOps FloatAxioms.
Import ListNotations.

Set Implicit Arguments.

(** ** Python exceptions and results *)

(** The two exceptions the notebook's code can raise: numpy's [ValueError]
    (shapes not aligned in [np.dot]) and Python's [IndexError] (a subscript
    out of range). *)
Inductive exn : Type :=
| ValueError
| IndexError.

Inductive result (A : Type) : Type :=
| Ok (a : A)
| Raise (e : exn).

Arguments Ok {A} a.
Arguments Raise {A} e.

Definition rbind {A B : Type} (r : result A) (k : A -> result B) : result B :=
  match r with
  | Ok a => k a
  | Raise e => Raise e
  end.

Notation "'let*' x ':=' c 'in' k" := (rbind c (fun x => k))
  (at level 10, x name, c at level 100, k at level 200).

(** [l[i]] for a non-negative index: [IndexError] when out of range. *)
Definition subscript {A : Type} (l : list A) (i : nat) : result A :=
  match nth_error l i with
  | Some a => Ok a
  | None => Raise IndexError
  end.

(** ** Numbers *)

(** The operations on numbers the notebook uses: [+], [*], [>=], integer
    operands (the [0]/[1] features, labels and outputs: Python converts
    them exactly when they meet a float) and decimal literals ([of_dec m e]
    is the literal [m * 10^-e]). *)
Class Num (F : Type) : Type := {
  nadd : F -> F -> F;
  nmul : F -> F -> F;
  nge : F -> F -> bool;
  of_int : Z -> F;
  of_dec : Z -> nat -> F
}.

(** Binary64.  An integer that is a double (every one below 2^53) converts
    exactly, and the correctly rounded quotient of [m] by [10^e], both of
    them doubles below 2^63, is the double nearest to the decimal literal,
    which is how Python reads it.  [float_of_int] is meant for integers of
    absolute value below 2^63 only (beyond, the machine integer it goes
    through wraps around); the notebook's integers are the features, labels
    and outputs 0 and 1 and their differences. *)
Definition float_of_int (z : Z) : float :=
  let a := PrimFloat.of_uint63 (Uint63.of_Z (Z.abs z)) in
  if (z <? 0)%Z then PrimFloat.opp a else a.

Definition float_of_dec (m : Z) (e : nat) : float :=
  let q := PrimFloat.div (float_of_int (Z.abs m))
                          (float_of_int (10 ^ Z.of_nat e)) in
  if (m <? 0)%Z then PrimFloat.opp q else q.

#[export] Instance float_Num : Num float := {
  nadd := PrimFloat.add;
  nmul := PrimFloat.mul;
  nge := fun x y => PrimFloat.leb y x;
  of_int := float_of_int;
  of_dec := float_of_dec
}.

(** Exact rationals, kept in lowest terms so that equal numbers are equal
    terms. *)
Definition Q_of_dec (m : Z) (e : nat) : Q :=
  Qred (Qmake m (Z.to_pos (10 ^ Z.of_nat e))).

#[export] Instance Q_Num : Num Q := {
  nadd := fun x y => Qred (Qplus x y);
  nmul := fun x y => Qred (Qmult x y);
  nge := fun x y => Qle_bool y x;
  of_int := inject_Z;
  of_dec := Q_of_dec
}.

(** ** The notebook's functions *)

Section Notebook.

Context {F : Type} {num : Num F}.

(** [np.dot] on two one-dimensional arrays: the sum of the products when
    the lengths agree, [ValueError] otherwise.  The sum is accumulated
    from left to right starting at zero.  On binary64 the order of the
    additions matters: numpy hands the sum to its BLAS routine, which adds
    from left to right on short vectors, as here, and in blocks on longer
    ones (from 16 entries on), where the last bit of the sum can differ
    from [dot_from]'s.  The notebook's vectors have 2 and 5 entries; what is
    proved below for all lengths is stated relative to [np_dot] and does not
    depend on the order of the additions. *)
Fixpoint dot_from (acc : F) (xs ws : list F) : F :=
  match xs, ws with
  | x :: xs', w :: ws' => dot_from (nadd acc (nmul x w)) xs' ws'
  | _, _ => acc
  end.

Definition np_dot (xs ws : list F) : result F :=
  if Nat.eqb (length xs) (length ws)
  then Ok (dot_from (of_int 0) xs ws)
  else Raise ValueError.

(** The local [bias_weight = .2] of [perceptron]. *)
Definition bias_weight : F := of_dec 2 1.

(** [activation_level = np.dot(input_vector, weights) + (bias_weight * 1)] *)
Definition activation_level (input weights : list F) : result F :=
  let* d := np_dot input weights in
  Ok (nadd d (nmul bias_weight (of_int 1))).

(** [def perceptron(input, weights, threshold)] *)
Definition perceptron (input weights : list F) (threshold : F) : result Z :=
  let* a := activation_level input weights in
  if nge a threshold then Ok 1%Z else Ok 0%Z.

(** The loop of [adjust_weights]: [for i, x in enumerate(given_input)],
    with [new_weights] the list built so far. *)
Fixpoint adjust_loop (perceptron_output expected_output : Z)
    (input_weights : list F) (learning_rate : F)
    (i : nat) (given_input : list F) (new_weights : list F)
  : result (list F) :=
  match given_input with
  | [] => Ok new_weights
  | x :: rest =>
      let* w := subscript input_weights i in
      let new_weight :=
        nadd w (nmul (nmul (of_int (expected_output - perceptron_output)) x)
                     learning_rate) in
      adjust_loop perceptron_output expected_output input_weights
        learning_rate (S i) rest (new_weights ++ [new_weight])
  end.

(** [def adjust_weights(perceptron_output, expected_output, given_input,
    input_weights, learning_rate=1)] *)
Definition adjust_weights (perceptron_output expected_output : Z)
    (given_input input_weights : list F) (learning_rate : F)
  : result (list F) :=
  adjust_loop perceptron_output expected_output input_weights
    learning_rate 0 given_input [].

(** *** Training: printing and exceptions *)

(** The two lines [train_perceptron] prints in every batch.  An event
    records the values that are handed to [print]; the text on the screen
    is numpy's rendering of them, which shows eight significant digits of
    a weight, so that two different weight vectors can print alike. *)
Inductive event : Type :=
| PreBatch (weights : list F)
| PostBatch (weights : list F) (output : list Z) (expected : list Z).

(** What a call returns: [train_perceptron] has no [return] statement. *)
Inductive pyval : Type :=
| PyNone
| PyArray (a : list F).

(** A computation that prints and may raise: what was printed before an
    exception stays printed. *)
Definition M (A : Type) : Type := list event -> list event * result A.

Definition ret {A : Type} (a : A) : M A := fun out => (out, Ok a).

Definition bind {A B : Type} (c : M A) (k : A -> M B) : M B :=
  fun out =>
    match c out with
    | (out', Ok a) => k a out'
    | (out', Raise e) => (out', Raise e)
    end.

Definition print (e : event) : M unit := fun out => (out ++ [e], Ok tt).

Definition lift {A : Type} (r : result A) : M A := fun out => (out, r).

(** [for datum in input_features:
       output.append(perceptron(datum, weights, activation_threshold))] *)
Fixpoint forward_loop (weights : list F) (activation_threshold : F)
    (input_features : list (list F)) (output : list Z) : result (list Z) :=
  match input_features with
  | [] => Ok output
  | datum :: rest =>
      let* o := perceptron datum weights activation_threshold in
      forward_loop weights activation_threshold rest (output ++ [o])
  end.

(** [for idx, datum in enumerate(input_features):
       weights = adjust_weights(output[idx], input_labels[idx], datum,
                                weights, learning_rate)] *)
Fixpoint update_loop (output input_labels : list Z) (learning_rate : F)
    (idx : nat) (input_features : list (list F)) (weights : list F)
  : result (list F) :=
  match input_features with
  | [] => Ok weights
  | datum :: rest =>
      let* o := subscript output idx in
      let* l := subscript input_labels idx in
      let* weights' := adjust_weights o l datum weights learning_rate in
      update_loop output input_labels learning_rate (S idx) rest weights'
  end.

Section Train.

Variables (input_features : list (list F)) (input_labels : list Z).
Variables (activation_threshold learning_rate : F).

(** The body of [for batch_num in range(0, num_batches)]. *)
Definition batch_body (weights : list F) : M (list F) :=
  bind (print (PreBatch weights)) (fun _ =>
  bind (lift (forward_loop weights activation_threshold input_features []))
    (fun output =>
  bind (lift (update_loop output input_labels learning_rate 0
                input_features weights)) (fun weights' =>
  bind (print (PostBatch weights' output input_labels)) (fun _ =>
  ret weights')))).

Fixpoint batch_loop (n : nat) (weights : list F) : M (list F) :=
  match n with
  | O => ret weights
  | S n' => bind (batch_body weights) (batch_loop n')
  end.

End Train.

(** [def train_perceptron(input_features, input_labels, initial_weights,
    activation_threshold, num_batches, learning_rate=1)].
    [range(0, num_batches)] is empty for a negative [num_batches]. *)
Definition train_perceptron (input_features : list (list F))
    (input_labels : list Z) (initial_weights : list F)
    (activation_threshold : F) (num_batches : Z) (learning_rate : F)
  : M pyval :=
  bind (batch_loop input_features input_labels activation_threshold
          learning_rate (Z.to_nat num_batches) initial_weights)
       (fun _ => ret PyNone).

End Notebook.

Arguments event F : clear implicits.
Arguments pyval F : clear implicits.

(** ** The spec's operations, in the spec's words

    Second definitions, written from the prose of the specification, to be
    compared with the functions above. *)

Section SpecWords.

Context {F : Type} {num : Num F}.

(** "Computes the inner product of the example's feature vector and the
    weight vector, adds the bias term, and compares against the
    threshold: output is 1 if the sum is greater than or equal to the
    threshold, else 0."  The bias is an argument here. *)
Definition evaluate (example weights : list F) (bias threshold : F)
  : result Z :=
  let* d := np_dot example weights in
  Ok (if nge (nadd d bias) threshold then 1%Z else 0%Z).

(** "new_weight[i] = weights[i] + (expected - observed) * example[i] *
    learningRate", for one index. *)
Definition delta_rule (observed expected : Z) (learningRate : F)
    (x w : F) : F :=
  nadd w (nmul (nmul (of_int (expected - observed)) x) learningRate).

(** The same, on a pair of an input entry and its weight. *)
Definition adjusted (observed expected : Z) (learningRate : F)
    (xw : F * F) : F :=
  delta_rule observed expected learningRate (fst xw) (snd xw).

Fixpoint map_result {A B : Type} (f : A -> result B) (l : list A)
  : result (list B) :=
  match l with
  | [] => Ok []
  | a :: l' =>
      let* b := f a in
      let* bs := map_result f l' in
      Ok (b :: bs)
  end.

Fixpoint fold_result {A B : Type} (f : A -> B -> result A) (l : list B)
    (a : A) : result A :=
  match l with
  | [] => Ok a
  | b :: l' => let* a' := f a b in fold_result f l' a'
  end.

Section Batch.

Variables (examples : list (list F)) (labels : list Z).
Variables (threshold learningRate : F).

(** Step 1 of a batch: "Evaluate every example against the current
    weights". *)
Definition batch_outputs_of (weights : list F) : result (list Z) :=
  map_result (fun example => perceptron example weights threshold)
    examples.

(** Step 2 of a batch: "For each example, in input order, apply adjust
    using that example's own observed/expected pair, chaining". *)
Definition batch_chain (outputs : list Z) (weights : list F)
  : result (list F) :=
  fold_result
    (fun w (eol : list F * (Z * Z)) =>
       adjust_weights (fst (snd eol)) (snd (snd eol)) (fst eol) w
         learningRate)
    (combine examples (combine outputs labels)) weights.

(** One batch as the spec describes it: the weights before, the outputs
    computed from them, the weights after the chain. *)
Record batch : Type := Batch {
  pre_weights : list F;
  outputs : list Z;
  post_weights : list F
}.

(** The batches of a run from [w] to [w']: each batch follows steps 1
    and 2, and starts from the weights the one before it ended with. *)
Inductive batch_run : list F -> list batch -> list F -> Prop :=
| run_done (w : list F) : batch_run w [] w
| run_batch (w : list F) (outs : list Z) (w' : list F)
    (rest : list batch) (w_final : list F) :
    batch_outputs_of w = Ok outs ->
    batch_chain outs w = Ok w' ->
    batch_run w' rest w_final ->
    batch_run w (Batch w outs w' :: rest) w_final.

(** The two lines a batch prints. *)
Definition batch_lines (b : batch) : list (event F) :=
  [PreBatch (pre_weights b);
   PostBatch (post_weights b) (outputs b) labels].

End Batch.

(** The output vectors printed by the batches of a trace, in order. *)
Fixpoint printed_outputs (out : list (event F)) : list (list Z) :=
  match out with
  | [] => []
  | PreBatch _ :: rest => printed_outputs rest
  | PostBatch _ output _ :: rest => output :: printed_outputs rest
  end.

(** "the system has converged when the output vector for all examples in
    a batch exactly equals the label vector": the number (from 1) of the
    first batch in which that happens, if any. *)
Fixpoint first_converged (labels : list Z) (outs : list (list Z))
  : option nat :=
  match outs with
  | [] => None
  | o :: rest =>
      if list_eq_dec Z.eq_dec o labels then Some 1%nat
      else option_map S (first_converged labels rest)
  end.

Definition batches_to_converge (examples : list (list F))
    (labels : list Z) (weights : list F) (threshold : F) (numBatches : Z)
    (learningRate : F) : option nat :=
  first_converged labels
    (printed_outputs
       (fst (train_perceptron examples labels weights threshold
               numBatches learningRate []))).

End SpecWords.

Arguments batch F : clear implicits.

(** ** The notebook's data *)

Section Data.

Context {F : Type} {num : Num F}.

(** [example_input = [1, .2, .1, .05, .2]] *)
Definition example_input : list F :=
  [of_int 1; of_dec 2 1; of_dec 1 1; of_dec 5 2; of_dec 2 1].

(** [example_weights = [.2, .12, .4, .6, .90]] *)
Definition example_weights : list F :=
  [of_dec 2 1; of_dec 12 2; of_dec 4 1; of_dec 6 1; of_dec 90 2].

(** [sample_data], also the rows of [xor_features]. *)
Definition sample_data : list (list F) :=
  [[of_int 0; of_int 0]; [of_int 0; of_int 1];
   [of_int 1; of_int 0]; [of_int 1; of_int 1]].

(** [expected_results] of the logical OR problem. *)
Definition expected_results : list Z := [0; 1; 1; 1]%Z.


(** The vector the specification gives for the adjusted example weights,
    [[-0.8, -0.08, 0.3, 0.55, 0.7]]. *)
Definition golden_weights : list F :=
  [of_dec (-8) 1; of_dec (-8) 2; of_dec 3 1; of_dec 55 2; of_dec 7 1].

End Data.

(** What the notebook really computes for the adjusted example weights:
    the doubles Python prints as
    [[-0.8, -0.08000000000000002, 0.30000000000000004, 0.5499999999999999,
    0.7]]. *)
Definition computed_weights : list float :=
  [float_of_dec (-8) 1; float_of_dec (-8000000000000002) 17;
   float_of_dec 30000000000000004 17; float_of_dec 5499999999999999 16;
   float_of_dec 7 1].

(** Python's [==] on two vectors of doubles, entry by entry. *)
Fixpoint float_list_eqb (a b : list float) : bool :=
  match a, b with
  | [], [] => true
  | x :: a', y :: b' => PrimFloat.eqb x y && float_list_eqb a' b'
  | _, _ => false
  end.

(** Two vectors of doubles of the same length whose entries differ by at
    most [tol]. *)
Fixpoint float_list_close (tol : float) (a b : list float) : bool :=
  match a, b with
  | [], [] => true
  | x :: a', y :: b' =>
      PrimFloat.leb (PrimFloat.abs (PrimFloat.sub x y)) tol
      && float_list_close tol a' b'
  | _, _ => false
  end.

(** The global [bias_weight] the notebook draws at random and never uses,
    [0.0004419447072414342] in the recorded run (to nine digits). *)
Definition global_bias_weight : float := float_of_dec 441944707 12.

(** The random initial weights of the recorded run,
    [array([0.00074888, 0.00065487])]. *)
Definition recorded_weights : list float :=
  [float_of_dec 74888 8; float_of_dec 65487 8].

(** ** Binary64 read as integers

    Every finite double is an integer multiple of [2^-1074].  [b64_value]
    is that integer; the infinities are given the values [2^2100] and
    [-2^2100], beyond every finite double (all of them below [2^2098] in
    absolute value), and NaN, which is not ordered, is told apart by
    [b64_nan].  [b64_round] is rounding to nearest, ties to even, on these
    integers: a positive integer keeps its 53 leading bits, and what reaches
    [2^2098] overflows to infinity. *)

Definition b64_huge : Z := (2 ^ 2098)%Z.

Definition b64_inf : Z := (2 ^ 2100)%Z.

(** The mantissa [q] with remainder [r] out of [2 * half] (doubled, so that
    [half] is compared exactly): down below the half, up above it, to the
    even neighbour at the half. *)
Definition b64_round_up (q r half : Z) : Z :=
  if (r <? half)%Z then q
  else if (r =? half)%Z then (if Z.even q then q else q + 1)%Z
  else (q + 1)%Z.

Definition b64_round_pos (N : Z) : Z :=
  let k := Z.max (Z.log2 N - 52) 0 in
  let q1 := b64_round_up (N / 2 ^ k) (2 * (N mod 2 ^ k)) (2 ^ k) in
  if (q1 * 2 ^ k <? b64_huge)%Z then (q1 * 2 ^ k)%Z else b64_inf.

Definition b64_round (N : Z) : Z :=
  match N with
  | Z0 => 0%Z
  | Zpos _ => b64_round_pos N
  | Zneg p => (- b64_round_pos (Zpos p))%Z
  end.

Definition b64_sv (x : spec_float) : Z :=
  match x with
  | S754_zero _ => 0%Z
  | S754_nan => 0%Z
  | S754_infinity s => cond_Zopp s b64_inf
  | S754_finite s m e => cond_Zopp s (Zpos m * 2 ^ (e + 1074))%Z
  end.

Definition b64_sf_nan (x : spec_float) : bool :=
  match x with S754_nan => true | _ => false end.

Definition b64_value (x : float) : Z := b64_sv (Prim2SF x).

Definition b64_nan (x : float) : bool := b64_sf_nan (Prim2SF x).

Definition b64_finite (x : float) : bool :=
  match Prim2SF x with
  | S754_zero _ | S754_finite _ _ _ => true
  | _ => false
  end.

(** [x] lies between the finite doubles [lo] and [hi]. *)
Definition b64_between (lo hi x : float) : Prop :=
  b64_finite lo = true /\ b64_finite hi = true
  /\ PrimFloat.leb lo x = true /\ PrimFloat.leb x hi = true.

(** ** Objects and aliasing

    The same two functions with their arguments passed as Python passes
    them, by reference to objects in a store, so that "the caller's vector
    is left unchanged" can be stated.  An object is a Python list or a numpy
    array of numbers. *)

Module Heap.

Section WithNum.

Context {F : Type} {num : Num F}.

Definition loc : Type := nat.

(** The objects alive, by address; addresses below [next] are in use. *)
Record store : Type := Store {
  cells : loc -> list F;
  next : loc
}.

Definition H (A : Type) : Type := store -> store * result A.

Definition hret {A : Type} (a : A) : H A := fun s => (s, Ok a).

Definition hbind {A B : Type} (c : H A) (k : A -> H B) : H B :=
  fun s =>
    match c s with
    | (s', Ok a) => k a s'
    | (s', Raise e) => (s', Raise e)
    end.

Definition hlift {A : Type} (r : result A) : H A := fun s => (s, r).

(** A new object ([[]], or [np.array(...)], which copies). *)
Definition alloc (v : list F) : H loc :=
  fun s =>
    (Store (fun l => if Nat.eqb l (next s) then v else cells s l)
           (S (next s)),
     Ok (next s)).

Definition deref (l : loc) : H (list F) := fun s => (s, Ok (cells s l)).

(** [l.append(x)]: the object at [l] is changed in place. *)
Definition append (l : loc) (x : F) : H unit :=
  fun s =>
    (Store (fun l' => if Nat.eqb l' l then cells s l ++ [x] else cells s l')
           (next s),
     Ok tt).

(** [perceptron]: [np.array(input)] and [np.array(weights)] are fresh
    copies; nothing is written to the arguments. *)
Definition perceptron (input weights : loc) (threshold : F) : H Z :=
  hbind (deref input) (fun xs =>
  hbind (alloc xs) (fun input_vector =>
  hbind (deref weights) (fun ws =>
  hbind (alloc ws) (fun weights' =>
  hbind (deref input_vector) (fun a =>
  hbind (deref weights') (fun b =>
  hbind (hlift (activation_level a b)) (fun level =>
  hret (if nge level threshold then 1%Z else 0%Z)))))))).

(** The loop of [adjust_weights], appending to the object [new_weights]
    and reading [input_weights[i]] from the store at every step. *)
Fixpoint adjust_loop (perceptron_output expected_output : Z)
    (input_weights : loc) (learning_rate : F) (new_weights : loc)
    (i : nat) (given_input : list F) : H unit :=
  match given_input with
  | [] => hret tt
  | x :: rest =>
      hbind (deref input_weights) (fun ws =>
      hbind (hlift (subscript ws i)) (fun w =>
      hbind (append new_weights
               (nadd w (nmul (nmul (of_int (expected_output
                                            - perceptron_output)) x)
                             learning_rate))) (fun _ =>
      adjust_loop perceptron_output expected_output input_weights
        learning_rate new_weights (S i) rest)))
  end.

(** [adjust_weights]: [new_weights = []], the loop, then
    [return np.array(new_weights)]. *)
Definition adjust_weights (perceptron_output expected_output : Z)
    (given_input input_weights : loc) (learning_rate : F) : H loc :=
  hbind (alloc []) (fun new_weights =>
  hbind (deref given_input) (fun xs =>
  hbind (adjust_loop perceptron_output expected_output input_weights
           learning_rate new_weights 0 xs) (fun _ =>
  hbind (deref new_weights) (fun built =>
  alloc built)))).

End WithNum.

Arguments store F : clear implicits.

End Heap.

(** Two stores that hold the same objects at the addresses in use in the
    first: nothing the caller can reach was written. *)
Definition preserved {F : Type} (s s' : Heap.store F) : Prop :=
  (Heap.next s <= Heap.next s')%nat
  /\ forall l, (l < Heap.next s)%nat -> Heap.cells s' l = Heap.cells s l.

(** ** The cells that call the functions *)

Section Cells.

Context {F : Type} {num : Num F}.

(** The cell "Now let's put our learning algorithm and our perceptron
    together", with the values it reads ([example_input],
    [example_weights], the threshold [0.5] and the correct output [0]) as
    arguments: the output, one adjustment at the default learning rate 1,
    and the output again; the value is the two outputs the cell prints. *)
Definition learn_once (input weights : list F) (threshold : F)
    (expected : Z) : result (Z * Z) :=
  let* output := perceptron input weights threshold in
  let* new_weights := adjust_weights output expected input weights (of_int 1) in
  let* output_again := perceptron input new_weights threshold in
  Ok (output, output_again).

(** The second loop of the cell "one iteration, or batch":
    [for idx, datum in enumerate(sample_data):
       new_weights = adjust_weights(output[idx], expected_results[idx],
                                    datum, weights)].
    Every adjustment starts from [weights]; [new_weights] is what the name
    holds so far. *)
Fixpoint cell_update_loop (output labels : list Z) (weights : list F)
    (idx : nat) (features : list (list F)) (new_weights : list F)
  : result (list F) :=
  match features with
  | [] => Ok new_weights
  | datum :: rest =>
      let* o := subscript output idx in
      let* l := subscript labels idx in
      let* new_weights' := adjust_weights o l datum weights (of_int 1) in
      cell_update_loop output labels weights (S idx) rest new_weights'
  end.

(** The whole cell, with the globals it reads as arguments ([sample_data],
    [expected_results], [weights], [activation_threshold], and
    [new_weights] as an earlier cell left it): its value is [new_weights]. *)
Definition one_batch_cell (features : list (list F)) (labels : list Z)
    (weights : list F) (activation_threshold : F) (new_weights : list F)
  : result (list F) :=
  let* output := forward_loop weights activation_threshold features [] in
  cell_update_loop output labels weights 0 features new_weights.

(** A trace with the labels shown by its lines replaced. *)
Definition relabel (labels : list Z) (e : event F) : event F :=
  match e with
  | PreBatch w => PreBatch w
  | PostBatch w output _ => PostBatch w output labels
  end.

End Cells.

(** * Properties *)

Unset Implicit Arguments.

(** ** Results and list helpers *)

Lemma rbind_Ok {A B : Type} (r : result A) (k : A -> result B) (b : B) :
  rbind r k = Ok b -> exists a, r = Ok a /\ k a = Ok b.
Proof.
  destruct r as [a|e]; simpl; intros Hk; [eauto | discriminate].
Qed.

Lemma subscript_Ok {A : Type} (l : list A) (i : nat) (a : A) :
  subscript l i = Ok a <-> nth_error l i = Some a.
Proof.
  unfold subscript. destruct (nth_error l i); split; congruence.
Qed.

Lemma subscript_lt {A : Type} (l : list A) (i : nat) :
  (i < length l)%nat ->
  exists a, subscript l i = Ok a /\ nth_error l i = Some a.
Proof.
  intros Hi. unfold subscript.
  destruct (nth_error l i) as [a|] eqn:E; [eauto|].
  apply nth_error_None in E. lia.
Qed.

Lemma subscript_ge {A : Type} (l : list A) (i : nat) :
  (length l <= i)%nat -> subscript l i = Raise IndexError.
Proof.
  intros Hi. unfold subscript.
  apply nth_error_None in Hi. now rewrite Hi.
Qed.


(** ** [adjust_weights] *)

Section AdjustFacts.

Context {F : Type} {num : Num F}.

Variables (po eo : Z) (lr : F).

Lemma skipn_nth_error {A : Type} (l : list A) (i : nat) (a : A) :
  nth_error l i = Some a -> skipn i l = a :: skipn (S i) l.
Proof.
  revert i. induction l as [|b l IH]; intros [|i] Hn; simpl in *;
    try discriminate.
  - now inversion Hn.
  - now apply IH.
Qed.

(** The loop, from index [i] with [acc] already built: it succeeds exactly
    when the weights reach as far as the input does. *)
Lemma adjust_loop_eq (iw : list F) (gi : list F) :
  forall (i : nat) (acc : list F),
    adjust_loop po eo iw lr i gi acc =
    if (i + length gi <=? length iw)%nat
    then Ok (acc ++ map (adjusted po eo lr) (combine gi (skipn i iw)))
    else if (length gi =? 0)%nat then Ok acc else Raise IndexError.
Proof.
  induction gi as [|x rest IH]; intros i acc.
  - simpl. rewrite app_nil_r. now destruct (i + 0 <=? length iw)%nat.
  - cbn [adjust_loop length Nat.eqb].
    destruct (Nat.lt_ge_cases i (length iw)) as [Hlt|Hge].
    + destruct (subscript_lt iw i Hlt) as (w & Hs & Hn).
      rewrite Hs. cbn [rbind]. rewrite IH.
      rewrite (skipn_nth_error _ _ _ Hn). cbn [combine map].
      replace (S i + length rest)%nat with (i + S (length rest))%nat by lia.
      destruct (i + S (length rest) <=? length iw)%nat eqn:E.
      * rewrite <- app_assoc. reflexivity.
      * apply Nat.leb_gt in E.
        destruct rest; [simpl in E; lia | reflexivity].
    + rewrite (subscript_ge iw i Hge). cbn [rbind].
      destruct (i + S (length rest) <=? length iw)%nat eqn:E; [|reflexivity].
      apply Nat.leb_le in E. lia.
Qed.

Lemma adjust_weights_eq (gi iw : list F) :
  adjust_weights po eo gi iw lr =
  if (length gi <=? length iw)%nat
  then Ok (map (adjusted po eo lr) (combine gi iw))
  else Raise IndexError.
Proof.
  unfold adjust_weights. rewrite adjust_loop_eq. simpl.
  destruct (length gi <=? length iw)%nat eqn:E; [reflexivity|].
  apply Nat.leb_gt in E. destruct gi; [simpl in E; lia | reflexivity].
Qed.

Lemma adjust_weights_same_length (gi iw : list F) :
  length gi = length iw ->
  exists new, adjust_weights po eo gi iw lr = Ok new
              /\ new = map (adjusted po eo lr) (combine gi iw)
              /\ length new = length iw.
Proof.
  intros Hlen. rewrite adjust_weights_eq.
  replace (length gi <=? length iw)%nat with true
    by (symmetry; apply Nat.leb_le; lia).
  eexists. split; [reflexivity|]. split; [reflexivity|].
  rewrite length_map, length_combine. lia.
Qed.

Lemma nth_error_adjusted (gi iw : list F) (i : nat) (x w : F) :
  nth_error gi i = Some x -> nth_error iw i = Some w ->
  nth_error (map (adjusted po eo lr) (combine gi iw)) i
  = Some (delta_rule po eo lr x w).
Proof.
  revert iw i. induction gi as [|y gi IH]; intros [|v iw] [|i] Hx Hw;
    simpl in *; try discriminate.
  - inversion Hx; inversion Hw; subst. reflexivity.
  - now apply IH.
Qed.

End AdjustFacts.

(** ** The store: what the two functions write *)

Section StoreFacts.

Context {F : Type} {num : Num F}.

Lemma store_loop_step (po eo : Z) (iw : Heap.loc) (lr : F) (nw : Heap.loc)
    (x : F) (rest : list F) (i : nat) (s : Heap.store F) :
  Heap.adjust_loop po eo iw lr nw i (x :: rest) s =
  match subscript (Heap.cells s iw) i with
  | Ok w =>
      Heap.adjust_loop po eo iw lr nw (S i) rest
        (Heap.Store
           (fun l' => if Nat.eqb l' nw
                      then Heap.cells s nw ++ [delta_rule po eo lr x w]
                      else Heap.cells s l')
           (Heap.next s))
  | Raise e => (s, Raise e)
  end.
Proof.
  cbn [Heap.adjust_loop]. unfold Heap.hbind, Heap.deref, Heap.hlift.
  destruct (subscript (Heap.cells s iw) i); reflexivity.
Qed.

Lemma store_loop_eq (po eo : Z) (iw : Heap.loc) (lr : F) (nw : Heap.loc)
    (gi : list F) :
  nw <> iw ->
  forall (i : nat) (s : Heap.store F),
  exists s',
    Heap.next s' = Heap.next s
    /\ (forall l, l <> nw -> Heap.cells s' l = Heap.cells s l)
    /\ match adjust_loop po eo (Heap.cells s iw) lr i gi (Heap.cells s nw) with
       | Ok v =>
           Heap.adjust_loop po eo iw lr nw i gi s = (s', Ok tt)
           /\ Heap.cells s' nw = v
       | Raise e => Heap.adjust_loop po eo iw lr nw i gi s = (s', Raise e)
       end.
Proof.
  intros Hne. induction gi as [|x rest IH]; intros i s.
  - exists s. simpl. auto.
  - rewrite store_loop_step. cbn [adjust_loop].
    destruct (subscript (Heap.cells s iw) i) as [w|e] eqn:Hs; cbn [rbind].
    + set (s1 := Heap.Store _ _).
      destruct (IH (S i) s1) as (s' & Hnext & Hother & Hres).
      assert (Hiw : Heap.cells s1 iw = Heap.cells s iw).
      { subst s1. simpl. destruct (Nat.eqb_spec iw nw); congruence. }
      assert (Hnw : Heap.cells s1 nw
                    = Heap.cells s nw ++ [delta_rule po eo lr x w]).
      { subst s1. simpl. now rewrite Nat.eqb_refl. }
      rewrite Hiw, Hnw in Hres.
      exists s'. split; [rewrite Hnext; reflexivity|]. split; [|exact Hres].
      intros l Hl. rewrite (Hother l Hl). subst s1. simpl.
      destruct (Nat.eqb_spec l nw); congruence.
    + exists s. auto.
Qed.

Lemma store_adjust_unfold (po eo : Z) (gi iw : Heap.loc) (lr : F)
    (s : Heap.store F) :
  let s1 := Heap.Store
              (fun l => if Nat.eqb l (Heap.next s) then []
                        else Heap.cells s l)
              (S (Heap.next s)) in
  Heap.adjust_weights po eo gi iw lr s =
  match Heap.adjust_loop po eo iw lr (Heap.next s) 0 (Heap.cells s1 gi) s1 with
  | (s2, Ok _) =>
      (Heap.Store
         (fun l => if Nat.eqb l (Heap.next s2)
                   then Heap.cells s2 (Heap.next s) else Heap.cells s2 l)
         (S (Heap.next s2)),
       Ok (Heap.next s2))
  | (s2, Raise e) => (s2, Raise e)
  end.
Proof.
  intros s1. unfold Heap.adjust_weights, Heap.hbind, Heap.alloc, Heap.deref.
  fold s1.
  destruct (Heap.adjust_loop po eo iw lr (Heap.next s) 0 (Heap.cells s1 gi) s1)
    as [s2 [u|e]]; reflexivity.
Qed.

(** [Heap.adjust_weights] computes what [adjust_weights] computes on the
    contents of its arguments, returns it in a new object and leaves every
    object of the caller as it was. *)
Lemma store_adjust_weights (po eo : Z) (gi iw : Heap.loc) (lr : F)
    (s : Heap.store F) :
  (gi < Heap.next s)%nat -> (iw < Heap.next s)%nat ->
  exists s',
    preserved s s'
    /\ match adjust_weights po eo (Heap.cells s gi) (Heap.cells s iw) lr with
       | Ok v =>
           exists r, Heap.adjust_weights po eo gi iw lr s = (s', Ok r)
                     /\ (Heap.next s <= r)%nat
                     /\ Heap.cells s' r = v
       | Raise e => Heap.adjust_weights po eo gi iw lr s = (s', Raise e)
       end.
Proof.
  intros Hgi Hiw. rewrite store_adjust_unfold. unfold adjust_weights.
  set (s1 := Heap.Store _ _).
  assert (Hne : Heap.next s <> iw) by lia.
  assert (H1gi : Heap.cells s1 gi = Heap.cells s gi).
  { subst s1. simpl. destruct (Nat.eqb_spec gi (Heap.next s)); [lia|easy]. }
  assert (H1iw : Heap.cells s1 iw = Heap.cells s iw).
  { subst s1. simpl. destruct (Nat.eqb_spec iw (Heap.next s)); [lia|easy]. }
  assert (H1nw : Heap.cells s1 (Heap.next s) = []).
  { subst s1. simpl. now rewrite Nat.eqb_refl. }
  assert (H1next : Heap.next s1 = S (Heap.next s)) by reflexivity.
  assert (H1old : forall l, (l < Heap.next s)%nat
                            -> Heap.cells s1 l = Heap.cells s l).
  { intros l Hl. subst s1. simpl.
    destruct (Nat.eqb_spec l (Heap.next s)); [lia|easy]. }
  destruct (store_loop_eq po eo iw lr (Heap.next s) (Heap.cells s1 gi) Hne 0 s1)
    as (s2 & Hnext & Hother & Hres).
  rewrite H1iw, H1nw, H1gi in Hres. rewrite H1gi.
  clearbody s1.
  destruct (adjust_loop po eo (Heap.cells s iw) lr 0 (Heap.cells s gi) [])
    as [v|e].
  - destruct Hres as [Hrun Hv]. rewrite Hrun.
    eexists. split; [|exists (Heap.next s2); split; [reflexivity|]].
    + split; simpl; [lia|].
      intros l Hl.
      destruct (Nat.eqb_spec l (Heap.next s2)); [lia|].
      rewrite Hother by lia. now apply H1old.
    + split; [lia|]. simpl. rewrite Nat.eqb_refl. exact Hv.
  - rewrite Hres. exists s2. split; [|reflexivity].
    split; [lia|].
    intros l Hl. rewrite Hother by lia. now apply H1old.
Qed.

(** [Heap.perceptron] returns what [perceptron] returns on the contents of
    its arguments and leaves every object of the caller as it was. *)
Lemma store_perceptron (input weights : Heap.loc) (threshold : F)
    (s : Heap.store F) :
  (input < Heap.next s)%nat -> (weights < Heap.next s)%nat ->
  exists s',
    preserved s s'
    /\ Heap.perceptron input weights threshold s
       = (s', perceptron (Heap.cells s input) (Heap.cells s weights)
                threshold).
Proof.
  intros Hi Hw. unfold Heap.perceptron, perceptron.
  unfold Heap.hbind, Heap.deref, Heap.alloc, Heap.hlift, Heap.hret.
  cbn [Heap.cells Heap.next]. rewrite !Nat.eqb_refl.
  destruct (Nat.eqb_spec weights (Heap.next s)); [lia|].
  destruct (Nat.eqb_spec (Heap.next s) (S (Heap.next s))); [lia|].
  destruct (activation_level (Heap.cells s input) (Heap.cells s weights))
    as [a|e]; cbn [rbind].
  - eexists. split; [|destruct (nge a threshold); reflexivity].
    split; simpl; [lia|]. intros l Hl.
    destruct (Nat.eqb_spec l (S (Heap.next s))); [lia|].
    destruct (Nat.eqb_spec l (Heap.next s)); [lia|easy].
  - eexists. split; [|reflexivity].
    split; simpl; [lia|]. intros l Hl.
    destruct (Nat.eqb_spec l (S (Heap.next s))); [lia|].
    destruct (Nat.eqb_spec l (Heap.next s)); [lia|easy].
Qed.

End StoreFacts.

(** ** The update rule and the error cases *)

(** C3: for vectors of the same length, [adjust_weights] returns a vector
    of that length whose entry [i] is
    [weights[i] + (expected - observed) * example[i] * learningRate], and it
    returns it in a new object: every object the caller holds, the weight
    vector among them, is left as it was. *)
Theorem C3_adjust_weights_delta_rule {F : Type} {num : Num F}
    (observed expected : Z) (example weights : list F) (learningRate : F) :
  length example = length weights ->
  exists new,
    adjust_weights observed expected example weights learningRate = Ok new
    /\ length new = length weights
    /\ (forall i x w,
          nth_error example i = Some x -> nth_error weights i = Some w ->
          nth_error new i
          = Some (nadd w (nmul (nmul (of_int (expected - observed)) x)
                               learningRate)))
    /\ (forall (s : Heap.store F) (gi iw : Heap.loc),
          (gi < Heap.next s)%nat -> (iw < Heap.next s)%nat ->
          Heap.cells s gi = example -> Heap.cells s iw = weights ->
          exists s' r,
            Heap.adjust_weights observed expected gi iw learningRate s
            = (s', Ok r)
            /\ preserved s s'
            /\ Heap.cells s' iw = weights
            /\ (Heap.next s <= r)%nat
            /\ Heap.cells s' r = new).
Proof.
  intros Hlen.
  destruct (adjust_weights_same_length observed expected learningRate
              example weights Hlen) as (new & Hnew & Hmap & Hl).
  exists new. split; [exact Hnew|]. split; [exact Hl|]. split.
  - intros i x w Hx Hw. subst new.
    now rewrite (nth_error_adjusted observed expected learningRate
                   _ _ _ _ _ Hx Hw).
  - intros s gi iw Hgi Hiw Hex Hws.
    destruct (store_adjust_weights observed expected gi iw learningRate s
                Hgi Hiw) as (s' & Hpres & Hrun).
    rewrite Hex, Hws, Hnew in Hrun. destruct Hrun as (r & Hr & Hfresh & Hv).
    exists s', r. repeat split; try assumption; try apply Hpres.
    rewrite <- Hws. now apply Hpres.
Qed.

(** The update rule at the notebook's example input and weights. *)
Lemma C3_adjust_weights_delta_rule_witness :
  length (example_input (F:=float)) = length (example_weights (F:=float))
  /\ exists new,
      adjust_weights (F:=float) 1 0 example_input example_weights (of_int 1)
      = Ok new
      /\ length new = 5%nat.
Proof.
  split; [reflexivity|].
  destruct (C3_adjust_weights_delta_rule (F:=float) 1 0 example_input
              example_weights (of_int 1) eq_refl) as (new & Hnew & Hl & _).
  exists new. split; [exact Hnew | exact Hl].
Defined.

(** C5, as stated, fails on the code: with an example shorter than the
    weight vector, [adjust_weights] raises nothing and returns a vector of
    the example's length. *)
Lemma C5_adjust_shorter_example_succeeds :
  length [of_int (F:=float) 1] <> length [of_int (F:=float) 1; of_int 2]
  /\ adjust_weights (F:=float) 0 1 [of_int 1] [of_int 1; of_int 2] (of_int 1)
     = Ok [of_int 2]
  /\ ~ exists e,
       adjust_weights (F:=float) 0 1 [of_int 1] [of_int 1; of_int 2]
         (of_int 1) = Raise e.
Proof.
  split; [simpl; lia|]. split; [vm_compute; reflexivity|].
  intros [e He]. vm_compute in He. discriminate.
Qed.

(** C5, amended: when the lengths differ, [perceptron] always raises
    (numpy's [ValueError]); [adjust_weights] raises ([IndexError]) exactly
    when the example is the longer one, and when the example is the shorter
    one it returns the delta rule applied to the example and the first
    weights, a vector of the example's length. *)
Theorem C5_length_mismatch {F : Type} {num : Num F}
    (observed expected : Z) (example weights : list F)
    (threshold learningRate : F) :
  length example <> length weights ->
  perceptron example weights threshold = Raise ValueError
  /\ ((length weights < length example)%nat ->
      adjust_weights observed expected example weights learningRate
      = Raise IndexError)
  /\ ((length example < length weights)%nat ->
      exists new,
        adjust_weights observed expected example weights learningRate
        = Ok new
        /\ new = map (adjusted observed expected learningRate)
                   (combine example weights)
        /\ length new = length example).
Proof.
  intros Hne. split; [|split].
  - unfold perceptron, activation_level, np_dot.
    destruct (Nat.eqb_spec (length example) (length weights)); [easy|].
    reflexivity.
  - intros Hlt. rewrite adjust_weights_eq.
    destruct (Nat.leb_spec (length example) (length weights)); [lia|].
    reflexivity.
  - intros Hlt. rewrite adjust_weights_eq.
    destruct (Nat.leb_spec (length example) (length weights)); [|lia].
    eexists. split; [reflexivity|]. split; [reflexivity|].
    rewrite length_map, length_combine. lia.
Qed.

(** Three inputs against two weights: both functions raise. *)
Lemma C5_length_mismatch_witness :
  length [of_int (F:=float) 1; of_int 2; of_int 3]
    <> length [of_int (F:=float) 1; of_int 2]
  /\ perceptron (F:=float) [of_int 1; of_int 2; of_int 3]
       [of_int 1; of_int 2] (of_dec 5 1) = Raise ValueError
  /\ adjust_weights (F:=float) 0 1 [of_int 1; of_int 2; of_int 3]
       [of_int 1; of_int 2] (of_int 1) = Raise IndexError.
Proof.
  assert (Hne : length [of_int (F:=float) 1; of_int 2; of_int 3]
                <> length [of_int (F:=float) 1; of_int 2])
    by (simpl; discriminate).
  split; [exact Hne|].
  destruct (C5_length_mismatch (F:=float) 0 1 [of_int 1; of_int 2; of_int 3]
              [of_int 1; of_int 2] (of_dec 5 1) (of_int 1) Hne)
    as (Hp & Hlong & _).
  split; [exact Hp|]. apply Hlong. simpl. apply le_n.
Defined.
(** ** The worked example of [adjust_weights] *)

(** C9, as stated, fails on the code: on binary64 the call
    [adjust_weights(1, 0, example_input, example_weights)] does not return
    the vector [[-0.8, -0.08, 0.3, 0.55, 0.7]]; Python's [==] against it is
    false in three of the entries. *)
Lemma C9_golden_not_exact :
  adjust_weights (F:=float) 1 0 example_input example_weights (of_int 1)
    <> Ok golden_weights
  /\ exists v,
      adjust_weights (F:=float) 1 0 example_input example_weights (of_int 1)
        = Ok v
      /\ float_list_eqb v golden_weights = false.
Proof.
  split.
  - intros Heq.
    apply (f_equal (fun r => match r with
                             | Ok v => float_list_eqb v golden_weights
                             | Raise _ => false
                             end)) in Heq.
    vm_compute in Heq. discriminate.
  - eexists. split; [vm_compute; reflexivity | vm_compute; reflexivity].
Qed.

(** C9, amended: with observed 1, expected 0, learning rate 1, the example
    input and the example weights, [adjust_weights] returns, on binary64,
    exactly the doubles [[-0.8, -0.08000000000000002, 0.30000000000000004,
    0.5499999999999999, 0.7]]; they are within 2e-16 of the vector of the
    specification, and in exact arithmetic the result is that vector. *)
Theorem C9_adjust_example_weights :
  adjust_weights (F:=float) 1 0 example_input example_weights (of_int 1)
    = Ok computed_weights
  /\ float_list_close (float_of_dec 2 16) computed_weights golden_weights
     = true
  /\ adjust_weights (F:=Q) 1 0 example_input example_weights (of_int 1)
     = Ok golden_weights.
Proof.
  repeat split; vm_compute; reflexivity.
Qed.

(** ** The training loop *)

Section TrainFacts.

Context {F : Type} {num : Num F}.

Variables (features : list (list F)) (labels : list Z) (thr lr : F).

Lemma map_result_length {A B : Type} (f : A -> result B) (l : list A) :
  forall bs, map_result f l = Ok bs -> length bs = length l.
Proof.
  induction l as [|a l IH]; simpl; intros bs Hm.
  - inversion Hm. reflexivity.
  - destruct (f a) as [b|e]; simpl in Hm; [|discriminate].
    destruct (map_result f l) as [bs'|e]; simpl in Hm; [|discriminate].
    inversion Hm. simpl. now rewrite (IH bs').
Qed.

(** The first loop of a batch appends, to what [output] holds, the outputs
    of all the examples against the same weights. *)
Lemma forward_loop_eq (w : list F) (feats : list (list F)) :
  forall acc,
    forward_loop w thr feats acc =
    let* outs := batch_outputs_of feats thr w in Ok (acc ++ outs).
Proof.
  unfold batch_outputs_of.
  induction feats as [|datum rest IH]; intros acc; simpl.
  - now rewrite app_nil_r.
  - destruct (perceptron datum w thr) as [o|e]; simpl; [|reflexivity].
    rewrite IH.
    destruct (map_result (fun example => perceptron example w thr) rest)
      as [outs|e]; simpl; [|reflexivity].
    now rewrite <- app_assoc.
Qed.

(** The second loop of a batch, from index [idx]: when [output] and the
    labels reach as far as the examples do, subscripting by the index is
    pairing the lists up. *)
Lemma update_loop_eq (output : list Z) (feats : list (list F)) :
  forall idx w,
    (idx + length feats <= length output)%nat ->
    (idx + length feats <= length labels)%nat ->
    update_loop output labels lr idx feats w =
    batch_chain feats (skipn idx labels) lr (skipn idx output) w.
Proof.
  unfold batch_chain.
  induction feats as [|datum rest IH]; intros idx w Ho Hl; simpl in *.
  - reflexivity.
  - destruct (subscript_lt output idx) as (o & Hso & Hno); [lia|].
    destruct (subscript_lt labels idx) as (l & Hsl & Hnl); [lia|].
    rewrite Hso, Hsl. cbn [rbind].
    rewrite (skipn_nth_error _ _ _ Hno), (skipn_nth_error _ _ _ Hnl).
    cbn [combine fold_result fst snd].
    destruct (adjust_weights o l datum w lr) as [w'|e]; simpl; [|reflexivity].
    apply IH; lia.
Qed.

(** One batch, for any input: the line before, both loops, the line
    after; an exception leaves the first line printed. *)
Lemma batch_body_unfold (w : list F) (out : list (event F)) :
  batch_body features labels thr lr w out =
  match batch_outputs_of features thr w with
  | Ok outs =>
      match update_loop outs labels lr 0 features w with
      | Ok w' => (out ++ [PreBatch w; PostBatch w' outs labels], Ok w')
      | Raise e => (out ++ [PreBatch w], Raise e)
      end
  | Raise e => (out ++ [PreBatch w], Raise e)
  end.
Proof.
  unfold batch_body, bind, print, lift, ret. rewrite forward_loop_eq.
  destruct (batch_outputs_of features thr w) as [outs|e]; simpl;
    [|reflexivity].
  destruct (update_loop outs labels lr 0 features w) as [w'|e];
    [|reflexivity].
  now rewrite <- app_assoc.
Qed.

Lemma batch_body_eq (w : list F) (out : list (event F)) :
  (length features <= length labels)%nat ->
  batch_body features labels thr lr w out =
  match batch_outputs_of features thr w with
  | Ok outs =>
      match batch_chain features labels lr outs w with
      | Ok w' => (out ++ [PreBatch w; PostBatch w' outs labels], Ok w')
      | Raise e => (out ++ [PreBatch w], Raise e)
      end
  | Raise e => (out ++ [PreBatch w], Raise e)
  end.
Proof.
  intros Hl. rewrite batch_body_unfold.
  destruct (batch_outputs_of features thr w) as [outs|e] eqn:Ho;
    [|reflexivity].
  apply map_result_length in Ho.
  rewrite update_loop_eq by (simpl; lia). reflexivity.
Qed.

(** Every line printed by the loop is a line before a batch, or a line
    after a batch that shows the outputs of all the examples against some
    one weight vector. *)
Lemma batch_loop_events (n : nat) :
  forall w out e,
    In e (fst (batch_loop features labels thr lr n w out)) ->
    In e out
    \/ (exists w0, e = PreBatch w0)
    \/ (exists w0 outs w',
          e = PostBatch w' outs labels
          /\ batch_outputs_of features thr w0 = Ok outs).
Proof.
  induction n as [|n IH]; intros w out e Hin.
  - left. exact Hin.
  - cbn [batch_loop] in Hin. unfold bind in Hin.
    rewrite batch_body_unfold in Hin.
    destruct (batch_outputs_of features thr w) as [outs|ex] eqn:Ho.
    + destruct (update_loop outs labels lr 0 features w) as [w'|ex].
      * apply IH in Hin. destruct Hin as [Hin|Hin]; [|right; exact Hin].
        apply in_app_or in Hin. destruct Hin as [Hin|Hin]; [now left|].
        right. destruct Hin as [<-|[<-|[]]]; [left; eauto|].
        right. exists w, outs, w'. auto.
      * simpl in Hin. apply in_app_or in Hin.
        destruct Hin as [Hin|[<-|[]]]; [now left|]. right. left. eauto.
    + simpl in Hin. apply in_app_or in Hin.
      destruct Hin as [Hin|[<-|[]]]; [now left|]. right. left. eauto.
Qed.


Lemma printed_outputs_app (a b : list (event F)) :
  printed_outputs (a ++ b) = printed_outputs a ++ printed_outputs b.
Proof.
  induction a as [|[w|w' o l] a IH]; simpl; [reflexivity|exact IH|].
  now rewrite IH.
Qed.

End TrainFacts.

(** ** Runs on well-formed input *)

Section RunFacts.

Context {F : Type} {num : Num F}.

Variables (features : list (list F)) (labels : list Z) (thr lr : F).

Lemma perceptron_total (example w : list F) :
  length example = length w -> exists o, perceptron example w thr = Ok o.
Proof.
  intros Hlen. unfold perceptron, activation_level, np_dot.
  rewrite Hlen, Nat.eqb_refl. cbn [rbind].
  destruct (nge _ thr); eauto.
Qed.

Lemma batch_outputs_total (w : list F) (feats : list (list F)) :
  Forall (fun example => length example = length w) feats ->
  exists outs, batch_outputs_of feats thr w = Ok outs.
Proof.
  unfold batch_outputs_of. induction 1 as [|example rest Hex _ IH]; simpl.
  - eauto.
  - destruct (perceptron_total example w Hex) as (o & ->).
    destruct IH as (outs & ->). simpl. eauto.
Qed.

Lemma batch_chain_total (feats : list (list F)) :
  forall (outs ls : list Z) (w : list F),
    Forall (fun example => length example = length w) feats ->
    exists w', batch_chain feats ls lr outs w = Ok w'
               /\ length w' = length w.
Proof.
  unfold batch_chain.
  induction feats as [|example rest IH]; intros outs ls w Hwf.
  - simpl. eauto.
  - destruct outs as [|o outs]; [simpl; eauto|].
    destruct ls as [|l ls]; [simpl; eauto|].
    inversion Hwf as [|? ? Hex Hrest]; subst.
    cbn [combine fold_result fst snd].
    destruct (adjust_weights_same_length o l lr example w Hex)
      as (w' & -> & _ & Hl).
    cbn [rbind].
    destruct (IH outs ls w') as (w'' & Hrun & Hl'').
    + rewrite Hl. exact Hrest.
    + exists w''. split; [exact Hrun | congruence].
Qed.

(** The loop of [train_perceptron] on well-formed input: it runs all [n]
    batches, each as the specification describes a batch, and prints the
    two lines of each. *)
Lemma batch_loop_run (n : nat) :
  (length features <= length labels)%nat ->
  forall w out,
    Forall (fun example => length example = length w) features ->
    exists steps w_final,
      batch_run features labels thr lr w steps w_final
      /\ length steps = n
      /\ batch_loop features labels thr lr n w out
         = (out ++ flat_map (batch_lines labels) steps, Ok w_final).
Proof.
  intros Hl. induction n as [|n IH]; intros w out Hwf.
  - exists [], w. split; [constructor|]. split; [reflexivity|].
    simpl. now rewrite app_nil_r.
  - cbn [batch_loop]. unfold bind. rewrite batch_body_eq by exact Hl.
    destruct (batch_outputs_total w features Hwf) as (outs & Ho).
    destruct (batch_chain_total features outs labels w Hwf)
      as (w' & Hc & Hlen).
    rewrite Ho, Hc.
    destruct (IH w' (out ++ [PreBatch w; PostBatch w' outs labels]))
      as (steps & w_final & Hrun & Hsteps & Hloop).
    + rewrite Hlen. exact Hwf.
    + exists (Batch w outs w' :: steps), w_final.
      split; [now constructor|]. split; [simpl; congruence|].
      rewrite Hloop. cbn [flat_map batch_lines pre_weights post_weights
                          outputs]. now rewrite <- app_assoc.
Qed.

(** The weights a run ends with are those the last batch ends with, and the
    last line printed shows them. *)
Lemma batch_run_last (w : list F) (steps : list (batch F)) (w_final : list F) :
  batch_run features labels thr lr w steps w_final ->
  steps <> [] ->
  forall d, exists outs,
    last (flat_map (batch_lines labels) steps) d
    = PostBatch w_final outs labels.
Proof.
  induction 1 as [w|w outs w' rest w_final Ho Hc Hrun IH]; intros Hne d.
  - congruence.
  - destruct rest as [|b rest].
    + inversion Hrun; subst. exists outs. reflexivity.
    + destruct (IH ltac:(discriminate) d) as (outs' & Hlast).
      exists outs'. rewrite <- Hlast. reflexivity.
Qed.

(** On any input with a label for every example, the loop stops before
    its [n] batches only by an exception, never because of what the
    outputs or the weights are: the batches it completed are printed in
    full, and then the first line of the batch that raised. *)
Lemma batch_loop_stops_only_on_exception (n : nat) :
  (length features <= length labels)%nat ->
  forall w out,
    exists steps w_last,
      batch_run features labels thr lr w steps w_last
      /\ ((length steps = n
           /\ batch_loop features labels thr lr n w out
              = (out ++ flat_map (batch_lines labels) steps, Ok w_last))
          \/ ((length steps < n)%nat
              /\ exists e,
                   batch_loop features labels thr lr n w out
                   = (out ++ flat_map (batch_lines labels) steps
                          ++ [PreBatch w_last], Raise e))).
Proof.
  intros Hl. induction n as [|n IH]; intros w out.
  - exists [], w. split; [constructor|]. left. split; [reflexivity|].
    simpl. now rewrite app_nil_r.
  - cbn [batch_loop]. unfold bind. rewrite batch_body_eq by exact Hl.
    destruct (batch_outputs_of features thr w) as [outs|e] eqn:Ho.
    + destruct (batch_chain features labels lr outs w) as [w'|e] eqn:Hc.
      * destruct (IH w' (out ++ [PreBatch w; PostBatch w' outs labels]))
          as (steps & w_last & Hrun & Hcases).
        exists (Batch w outs w' :: steps), w_last.
        split; [now constructor|].
        cbn [flat_map batch_lines pre_weights post_weights outputs length].
        destruct Hcases as [[Hlen Hloop]|[Hlen (e & Hloop)]].
        -- left. split; [congruence|]. rewrite Hloop.
           now rewrite <- app_assoc.
        -- right. split; [lia|]. exists e. rewrite Hloop.
           now rewrite <- !app_assoc.
      * exists [], w. split; [constructor|]. right.
        split; [simpl; lia|]. exists e. reflexivity.
    + exists [], w. split; [constructor|]. right.
      split; [simpl; lia|]. exists e. reflexivity.
Qed.

End RunFacts.

(** ** The trace of a run *)

Section LoopFacts.

Context {F : Type} {num : Num F}.

Variables (features : list (list F)) (labels : list Z) (thr lr : F).

(** What is printed stays printed. *)
Lemma batch_loop_extends (n : nat) :
  forall w out,
    exists rest,
      fst (batch_loop features labels thr lr n w out) = out ++ rest.
Proof.
  induction n as [|n IH]; intros w out.
  - exists []. simpl. now rewrite app_nil_r.
  - cbn [batch_loop]. unfold bind. rewrite batch_body_unfold.
    destruct (batch_outputs_of features thr w) as [outs|e];
      [|simpl; eauto].
    destruct (update_loop outs labels lr 0 features w) as [w'|e];
      [|simpl; eauto].
    destruct (IH w' (out ++ [PreBatch w; PostBatch w' outs labels]))
      as (rest & ->).
    rewrite <- app_assoc. eauto.
Qed.

Lemma train_perceptron_trace (w : list F) (n : Z) :
  fst (train_perceptron features labels w thr n lr [])
  = fst (batch_loop features labels thr lr (Z.to_nat n) w []).
Proof.
  unfold train_perceptron, bind.
  now destruct (batch_loop features labels thr lr (Z.to_nat n) w [])
    as [out [v|e]].
Qed.

Lemma first_converged_pos (outs : list (list Z)) (k : nat) :
  first_converged labels outs = Some k -> (1 <= k)%nat.
Proof.
  revert k. induction outs as [|o outs IH]; simpl; intros k Hk.
  - discriminate.
  - destruct (list_eq_dec Z.eq_dec o labels).
    + inversion Hk. lia.
    + destruct (first_converged labels outs); simpl in Hk; [|discriminate].
      inversion Hk. lia.
Qed.

End LoopFacts.

(** ** What [train_perceptron] does and returns *)

(** C1: on examples whose length is that of the weight vector, with one
    label per example, [train_perceptron] runs exactly [numBatches]
    batches and raises nothing.  Every batch first computes the outputs of
    all the examples against the weights it starts with, then applies
    [adjust_weights] once per example in input order, each time to the
    weights the previous application returned, and the next batch starts
    from the weights at the end of that chain ([batch_run]).  The trace is
    the two lines of every batch, whatever the outputs and the weights are:
    there is no early exit. *)
Theorem C1_train_runs_all_batches {F : Type} {num : Num F}
    (examples : list (list F)) (labels : list Z) (initialWeights : list F)
    (threshold : F) (numBatches : Z) (learningRate : F) :
  length labels = length examples ->
  Forall (fun example => length example = length initialWeights) examples ->
  (0 <= numBatches)%Z ->
  exists steps w_final,
    batch_run examples labels threshold learningRate initialWeights steps
      w_final
    /\ Z.of_nat (length steps) = numBatches
    /\ fst (train_perceptron examples labels initialWeights threshold
              numBatches learningRate [])
       = flat_map (batch_lines labels) steps
    /\ exists v,
         snd (train_perceptron examples labels initialWeights threshold
                numBatches learningRate []) = Ok v.
Proof.
  intros Hpar Hwf Hn.
  destruct (batch_loop_run examples labels threshold learningRate
              (Z.to_nat numBatches) ltac:(lia) initialWeights [] Hwf)
    as (steps & w_final & Hrun & Hlen & Hloop).
  exists steps, w_final. split; [exact Hrun|]. split; [lia|].
  unfold train_perceptron, bind. rewrite Hloop. simpl. eauto.
Qed.

(** The notebook's first training run: five batches on the logical-or data. *)
Lemma C1_train_runs_all_batches_witness :
  length expected_results = length (sample_data (F:=float))
  /\ Forall (fun example => length example = length recorded_weights)
       (sample_data (F:=float))
  /\ (0 <= 5)%Z
  /\ exists steps w_final,
       batch_run sample_data expected_results (of_dec 5 1) (of_int 1)
         recorded_weights steps w_final
       /\ Z.of_nat (length steps) = 5%Z
       /\ fst (train_perceptron sample_data expected_results recorded_weights
                 (of_dec 5 1) 5 (of_int 1) [])
          = flat_map (batch_lines expected_results) steps
       /\ exists v,
            snd (train_perceptron sample_data expected_results
                   recorded_weights (of_dec 5 1) 5 (of_int 1) []) = Ok v.
Proof.
  assert (H1 : length expected_results = length (sample_data (F:=float)))
    by reflexivity.
  assert (H2 : Forall (fun example => length example = length recorded_weights)
                 (sample_data (F:=float)))
    by (repeat constructor).
  assert (H3 : (0 <= 5)%Z) by (intros H; discriminate H).
  split; [exact H1|]. split; [exact H2|]. split; [exact H3|].
  exact (C1_train_runs_all_batches sample_data expected_results
           recorded_weights (of_dec 5 1) 5 (of_int 1) H1 H2 H3).
Defined.

(** C4, as stated, fails on the code: the call of the notebook,
    [train_perceptron(sample_data, expected_results, weights, 0.5, 5)],
    returns [None], not a weight vector. *)
Lemma C4_train_returns_none :
  snd (train_perceptron (F:=float) sample_data expected_results
         recorded_weights (of_dec 5 1) 5 (of_int 1) []) = Ok PyNone
  /\ forall w : list float,
       snd (train_perceptron (F:=float) sample_data expected_results
              recorded_weights (of_dec 5 1) 5 (of_int 1) [])
       <> Ok (PyArray w).
Proof.
  assert (H : snd (train_perceptron (F:=float) sample_data expected_results
                     recorded_weights (of_dec 5 1) 5 (of_int 1) [])
              = Ok PyNone) by (vm_compute; reflexivity).
  split; [exact H|]. intros w Hw. rewrite H in Hw. discriminate.
Qed.

(** C4, amended: on valid input [train_perceptron] returns [None]; the
    weights as of the end of the last batch are printed, not returned: when
    there is at least one batch, they are the weights of the last line of
    the trace, and with no batch nothing is printed. *)
Theorem C4_train_prints_final_weights {F : Type} {num : Num F}
    (examples : list (list F)) (labels : list Z) (initialWeights : list F)
    (threshold : F) (numBatches : Z) (learningRate : F) :
  length labels = length examples ->
  Forall (fun example => length example = length initialWeights) examples ->
  (0 <= numBatches)%Z ->
  snd (train_perceptron examples labels initialWeights threshold numBatches
         learningRate []) = Ok PyNone
  /\ exists steps w_final,
       batch_run examples labels threshold learningRate initialWeights steps
         w_final
       /\ Z.of_nat (length steps) = numBatches
       /\ ((0 < numBatches)%Z ->
           exists outs,
             last (fst (train_perceptron examples labels initialWeights
                          threshold numBatches learningRate []))
                  (PreBatch initialWeights)
             = PostBatch w_final outs labels)
       /\ (numBatches = 0%Z ->
           fst (train_perceptron examples labels initialWeights threshold
                  numBatches learningRate []) = []
           /\ w_final = initialWeights).
Proof.
  intros Hpar Hwf Hn.
  destruct (batch_loop_run examples labels threshold learningRate
              (Z.to_nat numBatches) ltac:(lia) initialWeights [] Hwf)
    as (steps & w_final & Hrun & Hlen & Hloop).
  unfold train_perceptron, bind. rewrite Hloop. simpl.
  split; [reflexivity|]. exists steps, w_final.
  split; [exact Hrun|]. split; [lia|]. split.
  - intros Hpos. apply (batch_run_last _ _ _ _ _ _ _ Hrun).
    intros ->. simpl in Hlen. lia.
  - intros ->. simpl in Hlen. destruct steps; [|discriminate].
    inversion Hrun; subst. split; reflexivity.
Qed.

(** The notebook's first training run returns [None]. *)
Lemma C4_train_prints_final_weights_witness :
  length expected_results = length (sample_data (F:=float))
  /\ Forall (fun example => length example = length recorded_weights)
       (sample_data (F:=float))
  /\ (0 <= 5)%Z
  /\ snd (train_perceptron (F:=float) sample_data expected_results
            recorded_weights (of_dec 5 1) 5 (of_int 1) []) = Ok PyNone.
Proof.
  assert (H1 : length expected_results = length (sample_data (F:=float)))
    by reflexivity.
  assert (H2 : Forall (fun example => length example = length recorded_weights)
                 (sample_data (F:=float)))
    by (repeat constructor).
  assert (H3 : (0 <= 5)%Z) by (intros H; discriminate H).
  split; [exact H1|]. split; [exact H2|]. split; [exact H3|].
  exact (proj1 (C4_train_prints_final_weights sample_data expected_results
                  recorded_weights (of_dec 5 1) 5 (of_int 1) H1 H2 H3)).
Defined.

(** ** The threshold rule and the bias *)

Section BiasFacts.

Context {F : Type} {num : Num F}.

(** The literal [.2] times [1] is the literal [.2]. *)
Hypothesis bias_times_one : nmul bias_weight (of_int 1) = bias_weight.

Lemma perceptron_evaluate (input weights : list F) (threshold : F) :
  perceptron input weights threshold
  = evaluate input weights (of_dec 2 1) threshold.
Proof.
  unfold perceptron, evaluate, activation_level.
  destruct (np_dot input weights) as [d|e]; cbn [rbind]; [|reflexivity].
  rewrite bias_times_one. unfold bias_weight.
  destruct (nge _ threshold); reflexivity.
Qed.

Lemma batch_outputs_evaluate (examples : list (list F)) (threshold : F)
    (w : list F) :
  batch_outputs_of examples threshold w
  = map_result (fun example => evaluate example w (of_dec 2 1) threshold)
      examples.
Proof.
  unfold batch_outputs_of.
  induction examples as [|example rest IH]; simpl; [reflexivity|].
  now rewrite perceptron_evaluate, IH.
Qed.

End BiasFacts.

Lemma float_bias_times_one :
  nmul (F:=float) bias_weight (of_int 1) = bias_weight.
Proof. vm_compute. reflexivity. Qed.

Lemma Q_bias_times_one : nmul (F:=Q) bias_weight (of_int 1) = bias_weight.
Proof. vm_compute. reflexivity. Qed.

(** C2, as stated, fails on the code in two places.  The bias is not an
    argument: with input [[1]], weights [[0.1]] and threshold 0.5, a bias of
    0.5 gives a sum of 0.6 and the rule of the claim answers 1, while
    [perceptron] answers 0.  And for the example input and weights the sum
    is 0.674, not 0.701: exactly so in exact arithmetic, and on binary64
    it is below 0.7, the unit not firing at that threshold. *)
Lemma C2_rule_fails_for_other_bias :
  length [of_int (F:=float) 1] = length [of_dec (F:=float) 1 1]
  /\ evaluate (F:=float) [of_int 1] [of_dec 1 1] (of_dec 5 1) (of_dec 5 1)
     = Ok 1%Z
  /\ perceptron (F:=float) [of_int 1] [of_dec 1 1] (of_dec 5 1) = Ok 0%Z
  /\ activation_level (F:=Q) example_input example_weights
     = Ok (of_dec 674 3)
  /\ activation_level (F:=Q) example_input example_weights
     <> Ok (of_dec 701 3)
  /\ perceptron (F:=float) example_input example_weights (of_dec 7 1)
     = Ok 0%Z.
Proof.
  split; [reflexivity|].
  split; [vm_compute; reflexivity|].
  split; [vm_compute; reflexivity|].
  split; [vm_compute; reflexivity|].
  split; [vm_compute; discriminate|].
  vm_compute. reflexivity.
Qed.

(** C2, amended: for an example and a weight vector of the same length
    and any threshold, [np.dot] yields their inner product and [perceptron]
    returns 1 if that inner product plus the bias 0.2 is greater than or
    equal to the threshold and 0 otherwise; it writes to no object of the
    caller.  For the example input and weights and threshold 0.5 it returns
    1, the sum being 0.674 in exact arithmetic and the double
    0.6740000000000002 on binary64. *)
Theorem C2_perceptron_threshold_rule :
  (forall (F : Type) (num : Num F),
      nmul bias_weight (of_int 1) = bias_weight ->
      forall (input weights : list F) (threshold : F),
        length input = length weights ->
        exists d,
          np_dot input weights = Ok d
          /\ perceptron input weights threshold
             = Ok (if nge (nadd d (of_dec 2 1)) threshold
                   then 1%Z else 0%Z))
  /\ (forall (F : Type) (num : Num F) (s : Heap.store F)
             (input weights : Heap.loc) (threshold : F),
        (input < Heap.next s)%nat -> (weights < Heap.next s)%nat ->
        exists s',
          preserved s s'
          /\ Heap.perceptron input weights threshold s
             = (s', perceptron (Heap.cells s input) (Heap.cells s weights)
                      threshold))
  /\ perceptron (F:=float) example_input example_weights (of_dec 5 1)
     = Ok 1%Z
  /\ activation_level (F:=float) example_input example_weights
     = Ok (float_of_dec 6740000000000002 16)
  /\ perceptron (F:=Q) example_input example_weights (of_dec 5 1) = Ok 1%Z
  /\ activation_level (F:=Q) example_input example_weights
     = Ok (of_dec 674 3).
Proof.
  split; [|split; [|repeat split; vm_compute; reflexivity]].
  - intros F num Hb input weights threshold Hlen.
    rewrite (perceptron_evaluate Hb). unfold evaluate, np_dot.
    rewrite Hlen, Nat.eqb_refl. eexists. split; reflexivity.
  - intros F num s input weights threshold Hi Hw.
    exact (store_perceptron input weights threshold s Hi Hw).
Qed.

(** The threshold rule at the notebook's example input and weights. *)
Lemma C2_perceptron_threshold_rule_witness :
  nmul (F:=float) bias_weight (of_int 1) = bias_weight
  /\ length (example_input (F:=float)) = length (example_weights (F:=float))
  /\ exists d,
       np_dot (F:=float) example_input example_weights = Ok d
       /\ perceptron (F:=float) example_input example_weights (of_dec 5 1)
          = Ok (if nge (nadd d (of_dec 2 1)) (of_dec 5 1)
                then 1%Z else 0%Z).
Proof.
  assert (Hb : nmul (F:=float) bias_weight (of_int 1) = bias_weight)
    by (vm_compute; reflexivity).
  split; [exact Hb|]. split; [reflexivity|].
  exact (proj1 C2_perceptron_threshold_rule float float_Num Hb
           example_input example_weights (of_dec 5 1) eq_refl).
Defined.

(** C10: the bias [perceptron] adds to the inner product is the constant
    0.2 of its body; it has no bias argument, so whatever bias the caller
    holds (the notebook draws a global [bias_weight] at random) has no
    effect: the result is that of the rule of the specification at bias
    0.2, and in every training run the outputs a batch prints are the rule
    at bias 0.2 applied to all the examples and one weight vector. *)
Theorem C10_bias_is_the_constant {F : Type} {num : Num F} :
  nmul bias_weight (of_int 1) = bias_weight ->
  (forall (input weights : list F) (threshold : F),
      perceptron input weights threshold
      = evaluate input weights (of_dec 2 1) threshold)
  /\ (forall (examples : list (list F)) (labels : list Z)
             (initialWeights : list F) (threshold : F) (numBatches : Z)
             (learningRate : F) (w' : list F) (outs l : list Z),
        In (PostBatch w' outs l)
           (fst (train_perceptron examples labels initialWeights threshold
                   numBatches learningRate [])) ->
        exists w0,
          map_result
            (fun example => evaluate example w0 (of_dec 2 1) threshold)
            examples = Ok outs).
Proof.
  intros Hb. split; [exact (perceptron_evaluate Hb)|].
  intros examples labels w thr n lr w' outs l Hin.
  rewrite train_perceptron_trace in Hin. rename Hin into Hin'.
  apply batch_loop_events in Hin'.
  destruct Hin' as [[]|[(w0 & Hw0)|(w0 & outs' & w'' & He & Ho)]];
    [discriminate|].
  inversion He; subst. exists w0.
  now rewrite <- (batch_outputs_evaluate Hb).
Qed.

(** The fixed bias on binary64, at the input [[0, 1]] and weights [[0, 0.4]]. *)
Lemma C10_bias_is_the_constant_witness :
  nmul (F:=float) bias_weight (of_int 1) = bias_weight
  /\ perceptron (F:=float) [of_int 0; of_int 1] [of_int 0; of_dec 4 1]
       (of_dec 5 1)
     = evaluate [of_int 0; of_int 1] [of_int 0; of_dec 4 1] (of_dec 2 1)
         (of_dec 5 1).
Proof.
  assert (Hb : nmul (F:=float) bias_weight (of_int 1) = bias_weight)
    by (vm_compute; reflexivity).
  split; [exact Hb|].
  exact (proj1 (C10_bias_is_the_constant Hb) [of_int 0; of_int 1]
           [of_int 0; of_dec 4 1] (of_dec 5 1)).
Defined.

(** The global [bias_weight] of the notebook plays no part: on the input
    [[0, 1]] with weights [[0, 0.4]] the unit fires, which it would not do
    with the global bias. *)
Example global_bias_weight_unused :
  perceptron (F:=float) [of_int 0; of_int 1] [of_int 0; of_dec 4 1]
    (of_dec 5 1) = Ok 1%Z
  /\ evaluate (F:=float) [of_int 0; of_int 1] [of_int 0; of_dec 4 1]
       global_bias_weight (of_dec 5 1) = Ok 0%Z.
Proof. split; vm_compute; reflexivity. Qed.
(** ** Binary64: rounding on the integers *)

Section B64Round.

Open Scope Z_scope.

Lemma b64_round_up_bounds (q r half : Z) :
  q <= b64_round_up q r half <= q + 1.
Proof.
  unfold b64_round_up.
  destruct (r <? half); [lia|].
  destruct (r =? half); [destruct (Z.even q)|]; lia.
Qed.

Lemma b64_round_up_mono (q r r' half : Z) :
  r <= r' -> b64_round_up q r half <= b64_round_up q r' half.
Proof.
  intros Hr. unfold b64_round_up.
  destruct (Z.ltb_spec r half), (Z.ltb_spec r' half),
    (Z.eqb_spec r half), (Z.eqb_spec r' half), (Z.even q); lia.
Qed.

Lemma b64_round_up_exact (q half : Z) :
  0 < half -> b64_round_up q 0 half = q.
Proof.
  intros H. unfold b64_round_up.
  destruct (Z.ltb_spec 0 half); [reflexivity|lia].
Qed.

(** The rounded mantissa times its unit, before the overflow test. *)
Lemma b64_core_mono (N N' : Z) :
  0 < N -> N <= N' ->
  let k := Z.max (Z.log2 N - 52) 0 in
  let k' := Z.max (Z.log2 N' - 52) 0 in
  b64_round_up (N / 2 ^ k) (2 * (N mod 2 ^ k)) (2 ^ k) * 2 ^ k <=
  b64_round_up (N' / 2 ^ k') (2 * (N' mod 2 ^ k')) (2 ^ k') * 2 ^ k'.
Proof.
  intros HN HNN k k'.
  assert (HN' : 0 < N') by lia.
  assert (Hl : Z.log2 N <= Z.log2 N') by (apply Z.log2_le_mono; lia).
  assert (Hk0 : 0 <= k) by (unfold k; lia).
  assert (Hk0' : 0 <= k') by (unfold k'; lia).
  assert (Hkk : k <= k') by (unfold k, k'; lia).
  assert (HP : 0 < 2 ^ k) by (apply Z.pow_pos_nonneg; lia).
  assert (HP' : 0 < 2 ^ k') by (apply Z.pow_pos_nonneg; lia).
  pose proof (Z.log2_spec N HN) as [HL1 HL2].
  pose proof (Z.log2_spec N' HN') as [HL1' HL2'].
  pose proof (Z.log2_nonneg N) as HLn.
  pose proof (Z.log2_nonneg N') as HLn'.
  pose proof (Z.div_mod N (2 ^ k) ltac:(lia)) as HD.
  pose proof (Z.div_mod N' (2 ^ k') ltac:(lia)) as HD'.
  pose proof (Z.mod_pos_bound N (2 ^ k) HP) as HM.
  pose proof (Z.mod_pos_bound N' (2 ^ k') HP') as HM'.
  pose proof (b64_round_up_bounds (N / 2 ^ k) (2 * (N mod 2 ^ k)) (2 ^ k)) as HB.
  pose proof (b64_round_up_bounds (N' / 2 ^ k') (2 * (N' mod 2 ^ k')) (2 ^ k')) as HB'.
  destruct (Z.eq_dec k k') as [E|E].
  - rewrite <- E in *.
    assert (Hq : N / 2 ^ k <= N' / 2 ^ k) by (apply Z.div_le_mono; lia).
    destruct (Z.eq_dec (N / 2 ^ k) (N' / 2 ^ k)) as [Eq|Eq].
    + rewrite <- Eq in *.
      apply Z.mul_le_mono_nonneg_r; [lia|].
      apply b64_round_up_mono. nia.
    + apply Z.mul_le_mono_nonneg_r; [lia|]. lia.
  - (* the unit grows: a power of two lies between *)
    assert (Hlt : k < k') by lia.
    assert (Hk' : k' = Z.log2 N' - 52) by (unfold k' in *; lia).
    assert (Hup : (N / 2 ^ k + 1) * 2 ^ k <= 2 ^ (52 + k')).
    { destruct (Z.eq_dec k 0) as [K0|K0].
      - rewrite K0 in *. rewrite Z.pow_0_r in *. rewrite Z.div_1_r.
        assert (Z.log2 N <= 52) by (unfold k in K0; lia).
        assert (2 ^ Z.succ (Z.log2 N) <= 2 ^ (52 + k'))
          by (apply Z.pow_le_mono_r; lia).
        lia.
      - assert (Hk : k = Z.log2 N - 52) by (unfold k in *; lia).
        assert (Hq : N / 2 ^ k < 2 ^ 53).
        { apply Z.div_lt_upper_bound; [lia|].
          rewrite <- Z.pow_add_r by lia.
          replace (k + 53) with (Z.succ (Z.log2 N)) by lia. exact HL2. }
        assert (2 ^ 53 * 2 ^ k <= 2 ^ (52 + k')).
        { rewrite <- Z.pow_add_r by lia. apply Z.pow_le_mono_r; lia. }
        nia. }
    assert (Hlow : 2 ^ (52 + k') <= N' / 2 ^ k' * 2 ^ k').
    { assert (Hq : 2 ^ 52 <= N' / 2 ^ k').
      { apply Z.div_le_lower_bound; [lia|].
        rewrite <- Z.pow_add_r by lia.
        replace (k' + 52) with (Z.log2 N') by lia. exact HL1'. }
      rewrite Z.pow_add_r by lia. nia. }
    nia.
Qed.

Lemma b64_round_pos_pos (N : Z) : 0 < N -> 0 <= b64_round_pos N.
Proof.
  intros HN. unfold b64_round_pos.
  set (k := Z.max (Z.log2 N - 52) 0).
  assert (HP : 0 < 2 ^ k) by (apply Z.pow_pos_nonneg; unfold k; lia).
  pose proof (b64_round_up_bounds (N / 2 ^ k) (2 * (N mod 2 ^ k)) (2 ^ k)) as HB.
  assert (0 <= N / 2 ^ k) by (apply Z.div_pos; lia).
  destruct (Z.ltb_spec (b64_round_up (N / 2 ^ k) (2 * (N mod 2 ^ k)) (2 ^ k) * 2 ^ k) b64_huge).
  - nia.
  - unfold b64_inf. apply Z.pow_nonneg. lia.
Qed.

Lemma b64_huge_lt_inf : b64_huge < b64_inf.
Proof. unfold b64_huge, b64_inf. apply Z.pow_lt_mono_r; lia. Qed.

Lemma b64_round_pos_mono (N N' : Z) :
  0 < N -> N <= N' -> b64_round_pos N <= b64_round_pos N'.
Proof.
  intros HN HNN. pose proof (b64_core_mono N N' HN HNN) as H. cbv zeta in H.
  unfold b64_round_pos. pose proof b64_huge_lt_inf.
  destruct (Z.ltb_spec (b64_round_up (N / 2 ^ Z.max (Z.log2 N - 52) 0)
    (2 * (N mod 2 ^ Z.max (Z.log2 N - 52) 0)) (2 ^ Z.max (Z.log2 N - 52) 0) *
    2 ^ Z.max (Z.log2 N - 52) 0) b64_huge);
  destruct (Z.ltb_spec (b64_round_up (N' / 2 ^ Z.max (Z.log2 N' - 52) 0)
    (2 * (N' mod 2 ^ Z.max (Z.log2 N' - 52) 0)) (2 ^ Z.max (Z.log2 N' - 52) 0) *
    2 ^ Z.max (Z.log2 N' - 52) 0) b64_huge); lia.
Qed.

Lemma b64_round_pos_eq (N : Z) : 0 < N -> b64_round N = b64_round_pos N.
Proof. destruct N; intros H; try lia. reflexivity. Qed.

Lemma b64_round_neg_eq (N : Z) : N < 0 -> b64_round N = - b64_round_pos (- N).
Proof. destruct N; intros H; try lia. reflexivity. Qed.

Lemma b64_round_0 : b64_round 0 = 0.
Proof. reflexivity. Qed.

Lemma b64_round_mono (N N' : Z) : N <= N' -> b64_round N <= b64_round N'.
Proof.
  intros H.
  destruct (Z.lt_trichotomy N 0) as [HN|[HN|HN]];
  destruct (Z.lt_trichotomy N' 0) as [HN'|[HN'|HN']]; try lia.
  - rewrite !b64_round_neg_eq by lia.
    pose proof (b64_round_pos_mono (- N') (- N)). lia.
  - subst. rewrite b64_round_neg_eq by lia.
    pose proof (b64_round_pos_pos (- N)). rewrite b64_round_0. lia.
  - rewrite b64_round_neg_eq, b64_round_pos_eq by lia.
    pose proof (b64_round_pos_pos (- N)). pose proof (b64_round_pos_pos N'). lia.
  - subst. lia.
  - subst. rewrite (b64_round_pos_eq N') by lia. pose proof (b64_round_pos_pos N'). rewrite b64_round_0. lia.
  - rewrite !b64_round_pos_eq by lia. apply b64_round_pos_mono; lia.
Qed.

End B64Round.

(** ** Binary64: the specification of the operations, read on the integers *)

Section B64Spec.

Open Scope Z_scope.


Lemma b64_fexp (e : Z) : fexp prec emax e = Z.max (e - 53) (-1074).
Proof. reflexivity. Qed.

Lemma b64_digits2_size (m : positive) : digits2_pos m = Pos.size m.
Proof. induction m; cbn; congruence. Qed.

Lemma b64_digits (m : positive) : Zpos (digits2_pos m) = Z.log2 (Zpos m) + 1.
Proof.
  rewrite b64_digits2_size. destruct m; cbn; try reflexivity;
  rewrite Pos.add_1_r; reflexivity.
Qed.

Lemma b64_iter_pos {A : Type} (f : A -> A) (p : positive) (x : A) :
  iter_pos f p x = Pos.iter f x p.
Proof.
  revert x. induction p as [p IH|p IH|]; intros x; cbn.
  - rewrite !IH, !Pos.iter_swap. reflexivity.
  - rewrite !IH. reflexivity.
  - reflexivity.
Qed.

Lemma b64_shr_1 (m : Z) (r s : bool) :
  0 <= m ->
  shr_1 (Build_shr_record m r s) = Build_shr_record (m / 2) (Z.odd m) (r || s).
Proof.
  intros Hm. rewrite <- Z.div2_div.
  destruct m as [|[p|p|]|p]; try reflexivity. lia.
Qed.

Lemma b64_mod_double (m P : Z) :
  0 < P ->
  (m mod (P * 2) =? 0) = negb (Z.odd (m / P)) && (m mod P =? 0).
Proof.
  intros HP. rewrite Z.rem_mul_r by lia.
  rewrite (Zmod_odd (m / P)).
  pose proof (Z.mod_pos_bound m P HP).
  destruct (Z.odd (m / P)); cbn [negb andb].
  - apply Z.eqb_neq. lia.
  - rewrite Z.mul_0_r, Z.add_0_r. reflexivity.
Qed.

Lemma b64_pow_pred (n : Z) : 0 < n -> 2 ^ n = 2 ^ (n - 1) * 2.
Proof.
  intros H. replace n with (Z.succ (n - 1)) at 1 by lia.
  rewrite Z.pow_succ_r by lia. lia.
Qed.

Lemma b64_shr_iter (p : positive) (m : Z) (r s : bool) :
  0 <= m ->
  Pos.iter shr_1 (Build_shr_record m r s) p =
  Build_shr_record (m / 2 ^ Zpos p) (Z.odd (m / 2 ^ (Zpos p - 1)))
    (r || s || negb (m mod 2 ^ (Zpos p - 1) =? 0)).
Proof.
  intros Hm. induction p as [|p IH] using Pos.peano_ind.
  - cbn [Pos.iter]. rewrite b64_shr_1 by exact Hm.
    change (Zpos 1 - 1) with 0. rewrite Z.pow_0_r, Z.div_1_r, Z.mod_1_r.
    change (2 ^ 1) with 2. cbn [Z.eqb negb]. rewrite orb_false_r. reflexivity.
  - rewrite Pos.iter_succ, IH.
    assert (HP : 0 < 2 ^ (Zpos p - 1)) by (apply Z.pow_pos_nonneg; lia).
    assert (HP' : 0 < 2 ^ Zpos p) by (apply Z.pow_pos_nonneg; lia).
    rewrite b64_shr_1 by (apply Z.div_pos; lia).
    rewrite Pos2Z.inj_succ.
    replace (Z.succ (Zpos p) - 1) with (Zpos p) by lia.
    rewrite Z.div_div by lia.
    replace (2 ^ Zpos p * 2) with (2 ^ Z.succ (Zpos p))
      by (rewrite Z.pow_succ_r by lia; lia).
    f_equal.
    rewrite (b64_pow_pred (Zpos p)) by lia.
    rewrite b64_mod_double by exact HP.
    destruct (Z.odd (m / 2 ^ (Zpos p - 1))), r, s,
      (m mod 2 ^ (Zpos p - 1) =? 0); reflexivity.
Qed.

Lemma b64_round_up_scale (q r half c : Z) :
  0 < c -> b64_round_up q (r * c) (half * c) = b64_round_up q r half.
Proof.
  intros Hc. unfold b64_round_up.
  destruct (Z.ltb_spec (r * c) (half * c)), (Z.ltb_spec r half),
    (Z.eqb_spec (r * c) (half * c)), (Z.eqb_spec r half);
    try reflexivity; try nia.
Qed.

(** What the shifted-out bits decide is the comparison of the remainder with
    half of the unit. *)
Lemma b64_round_loc (M : Z) (n : positive) :
  0 <= M ->
  round_nearest_even
    (shr_m (Pos.iter shr_1 (Build_shr_record M false false) n))
    (loc_of_shr_record (Pos.iter shr_1 (Build_shr_record M false false) n)) =
  b64_round_up (M / 2 ^ Zpos n) (2 * (M mod 2 ^ Zpos n)) (2 ^ Zpos n).
Proof.
  intros HM. rewrite b64_shr_iter by exact HM.
  assert (HP : 0 < 2 ^ (Zpos n - 1)) by (apply Z.pow_pos_nonneg; lia).
  rewrite (b64_pow_pred (Zpos n)) by lia.
  rewrite Z.rem_mul_r by lia.
  rewrite (Zmod_odd (M / 2 ^ (Zpos n - 1))).
  pose proof (Z.mod_pos_bound M _ HP) as Hb.
  unfold b64_round_up, loc_of_shr_record, round_nearest_even.
  cbn [shr_m shr_r shr_s orb].
  destruct (Z.odd (M / 2 ^ (Zpos n - 1))).
  - destruct (Z.eqb_spec (M mod 2 ^ (Zpos n - 1)) 0) as [E|E]; cbn [negb].
    + rewrite E.
      destruct (Z.ltb_spec (2 * (0 + 2 ^ (Zpos n - 1) * 1)) (2 ^ (Zpos n - 1) * 2)); [lia|].
      destruct (Z.eqb_spec (2 * (0 + 2 ^ (Zpos n - 1) * 1)) (2 ^ (Zpos n - 1) * 2)); [|lia].
      reflexivity.
    + destruct (Z.ltb_spec (2 * (M mod 2 ^ (Zpos n - 1) + 2 ^ (Zpos n - 1) * 1))
        (2 ^ (Zpos n - 1) * 2)); [lia|].
      destruct (Z.eqb_spec (2 * (M mod 2 ^ (Zpos n - 1) + 2 ^ (Zpos n - 1) * 1))
        (2 ^ (Zpos n - 1) * 2)); [lia|].
      reflexivity.
  - destruct (Z.ltb_spec (2 * (M mod 2 ^ (Zpos n - 1) + 2 ^ (Zpos n - 1) * 0))
      (2 ^ (Zpos n - 1) * 2)); [|lia].
    destruct (negb (M mod 2 ^ (Zpos n - 1) =? 0)); reflexivity.
Qed.

Lemma b64_shr_fexp_0 (m e : Z) :
  fexp prec emax (Zdigits2 m + e) - e = 0 ->
  shr_fexp prec emax m e loc_Exact = (Build_shr_record m false false, e).
Proof. intros H. unfold shr_fexp, shr. rewrite H. reflexivity. Qed.

Lemma b64_shr_fexp_pos (m e : Z) (p : positive) :
  fexp prec emax (Zdigits2 m + e) - e = Zpos p ->
  shr_fexp prec emax m e loc_Exact =
  (Pos.iter shr_1 (Build_shr_record m false false) p, e + Zpos p).
Proof.
  intros H. unfold shr_fexp, shr. rewrite H. cbn [shr_record_of_loc].
  rewrite b64_iter_pos. reflexivity.
Qed.

Lemma b64_pow_bounds (m : positive) :
  2 ^ Z.log2 (Zpos m) <= Zpos m < 2 ^ (Z.log2 (Zpos m) + 1).
Proof. apply (Z.log2_spec (Zpos m)). lia. Qed.

(** A mantissa of at most 53 bits, of exactly 53 above the least exponent:
    the overflow test on the exponent is the one on the value. *)
Lemma b64_overflow_test (m e : Z) :
  0 < m < 2 ^ 53 -> -1074 <= e -> (-1074 < e -> 2 ^ 52 <= m) ->
  (m * 2 ^ (e + 1074) <? b64_huge) = (e <=? 971).
Proof.
  intros Hm He Hn. unfold b64_huge.
  assert (HP : 0 < 2 ^ (e + 1074)) by (apply Z.pow_pos_nonneg; lia).
  destruct (Z.leb_spec e 971) as [L|L].
  - apply Z.ltb_lt.
    assert (2 ^ 53 * 2 ^ (e + 1074) <= 2 ^ 2098).
    { rewrite <- Z.pow_add_r by lia. apply Z.pow_le_mono_r; lia. }
    nia.
  - apply Z.ltb_ge.
    assert (2 ^ 2098 <= 2 ^ 52 * 2 ^ (e + 1074)).
    { rewrite <- Z.pow_add_r by lia. apply Z.pow_le_mono_r; lia. }
    specialize (Hn ltac:(lia)). nia.
Qed.

(** The last two steps of rounding, once the mantissa [q] has been rounded
    to at most 53 bits at exponent [F]: it is kept, or it is [2^53] and is
    shifted once more. *)
Lemma b64_round_finish (s : bool) (q : positive) (F : Z) :
  -1074 <= F ->
  Zpos q <= 2 ^ 53 -> (-1074 < F -> 2 ^ 52 <= Zpos q) ->
  let r :=
    let '(mrs, e) := shr_fexp prec emax (Zpos q) F loc_Exact in
    match shr_m mrs with
    | Z0 => S754_zero s
    | Zpos m => if Z.leb e (emax - prec) then S754_finite s m e
                else S754_infinity s
    | _ => S754_nan
    end in
  b64_sf_nan r = false /\
  b64_sv r = cond_Zopp s
    (if Zpos q * 2 ^ (F + 1074) <? b64_huge then Zpos q * 2 ^ (F + 1074)
     else b64_inf).
Proof.
  intros HF Hq Hn.
  assert (HP : 0 < 2 ^ (F + 1074)) by (apply Z.pow_pos_nonneg; lia).
  destruct (Z.eq_dec (Zpos q) (2 ^ 53)) as [E|E].
  - (* one more shift *)
    assert (Eq : q = 9007199254740992%positive) by (injection E; auto).
    subst q.
    destruct (Z.eq_dec F (-1074)) as [E1|E1].
    + subst F. cbv zeta. vm_compute. split; reflexivity.
    + cbv zeta.
      rewrite (b64_shr_fexp_pos (Zpos 9007199254740992) F 1).
      2:{ cbn [Zdigits2]. rewrite b64_fexp.
          change (Zpos (digits2_pos 9007199254740992)) with 54. lia. }
      cbn [Pos.iter]. rewrite b64_shr_1 by lia. cbn [shr_m].
      change (Zpos 9007199254740992 / 2) with (Zpos 4503599627370496).
      change (emax - prec) with 971.
      replace (Zpos 9007199254740992 * 2 ^ (F + 1074)) with
        (Zpos 4503599627370496 * 2 ^ (F + 1 + 1074)).
      2:{ replace (F + 1 + 1074) with (Z.succ (F + 1074)) by lia.
          rewrite Z.pow_succ_r by lia. lia. }
      rewrite b64_overflow_test by (first [lia | intros; lia]).
      destruct (F + 1 <=? 971); split; reflexivity.
  - assert (Hq' : Zpos q < 2 ^ 53) by lia.
    cbv zeta.
    rewrite (b64_shr_fexp_0 (Zpos q) F).
    2:{ cbn [Zdigits2]. rewrite b64_fexp, b64_digits.
        pose proof (b64_pow_bounds q) as [B1 B2].
        assert (Z.log2 (Zpos q) <= 52).
        { destruct (Z.le_gt_cases (Z.log2 (Zpos q)) 52) as [L|L]; [exact L|].
          exfalso. assert (2 ^ 53 <= 2 ^ Z.log2 (Zpos q))
            by (apply Z.pow_le_mono_r; lia). lia. }
        destruct (Z.eq_dec F (-1074)) as [E1|E1]; [lia|].
        assert (52 <= Z.log2 (Zpos q)).
        { apply Z.log2_le_pow2; lia. }
        lia. }
    cbn [shr_m]. change (emax - prec) with 971.
    rewrite b64_overflow_test by (first [lia | intros; lia]).
    destruct (F <=? 971); split; reflexivity.
Qed.

Lemma b64_canonical (m : positive) (e : Z) :
  canonical_mantissa prec emax m e = true ->
  -1074 <= e /\ Z.log2 (Zpos m) <= 52 /\ (-1074 < e -> Z.log2 (Zpos m) = 52).
Proof.
  unfold canonical_mantissa. intros H. apply Z.eqb_eq in H.
  rewrite b64_fexp, b64_digits in H. lia.
Qed.

Lemma b64_mantissa_bounds (m : positive) (e : Z) :
  canonical_mantissa prec emax m e = true ->
  0 < Zpos m < 2 ^ 53 /\ (-1074 < e -> 2 ^ 52 <= Zpos m).
Proof.
  intros H. apply b64_canonical in H. destruct H as (He & Hl & Hn).
  pose proof (b64_pow_bounds m) as [B1 B2].
  split; [split; [lia|]|].
  - assert (2 ^ (Z.log2 (Zpos m) + 1) <= 2 ^ 53)
      by (apply Z.pow_le_mono_r; lia). lia.
  - intros L. rewrite (Hn L) in B1. exact B1.
Qed.

(** A canonical mantissa at its exponent is a fixed point of the rounding,
    up to the overflow test. *)
Lemma b64_round_pos_canonical (m : positive) (e : Z) :
  -1074 <= e -> Z.log2 (Zpos m) <= 52 -> (-1074 < e -> Z.log2 (Zpos m) = 52) ->
  b64_round_pos (Zpos m * 2 ^ (e + 1074)) =
  if Zpos m * 2 ^ (e + 1074) <? b64_huge then Zpos m * 2 ^ (e + 1074)
  else b64_inf.
Proof.
  intros He Hl Hn. unfold b64_round_pos.
  assert (HP : 0 < 2 ^ (e + 1074)) by (apply Z.pow_pos_nonneg; lia).
  rewrite Z.log2_mul_pow2 by lia.
  pose proof (Z.log2_nonneg (Zpos m)).
  replace (Z.max (e + 1074 + Z.log2 (Zpos m) - 52) 0) with (e + 1074).
  2:{ destruct (Z.eq_dec e (-1074)); [lia|]. rewrite Hn by lia. lia. }
  rewrite Z.div_mul, Z.mod_mul by lia.
  rewrite Z.mul_0_r, b64_round_up_exact by lia. reflexivity.
Qed.

Lemma b64_binary_round_aux (s : bool) (M : positive) (E : Z) :
  -1074 <= E -> E <= fexp prec emax (Zpos (digits2_pos M) + E) ->
  b64_sf_nan (binary_round_aux prec emax s (Zpos M) E loc_Exact) = false /\
  b64_sv (binary_round_aux prec emax s (Zpos M) E loc_Exact) =
    cond_Zopp s (b64_round_pos (Zpos M * 2 ^ (E + 1074))).
Proof.
  intros HE HF. rewrite b64_fexp, b64_digits in HF.
  pose proof (b64_pow_bounds M) as [B1 B2].
  pose proof (Z.log2_nonneg (Zpos M)) as HL.
  assert (HP : 0 < 2 ^ (E + 1074)) by (apply Z.pow_pos_nonneg; lia).
  unfold binary_round_aux.
  destruct (fexp prec emax (Zdigits2 (Zpos M) + E) - E) as [|p|p] eqn:En;
    cbn [Zdigits2] in En; rewrite b64_fexp, b64_digits in En.
  - (* the mantissa is canonical already *)
    rewrite (b64_shr_fexp_0 (Zpos M) E)
      by (cbn [Zdigits2]; rewrite b64_fexp, b64_digits; exact En).
    cbn [shr_m shr_r shr_s loc_of_shr_record round_nearest_even].
    assert (Hl : Z.log2 (Zpos M) <= 52) by lia.
    assert (Hn : -1074 < E -> Z.log2 (Zpos M) = 52) by lia.
    assert (Hq : Zpos M <= 2 ^ 53).
    { assert (2 ^ (Z.log2 (Zpos M) + 1) <= 2 ^ 53)
        by (apply Z.pow_le_mono_r; lia). lia. }
    assert (Hq' : -1074 < E -> 2 ^ 52 <= Zpos M).
    { intros L. rewrite (Hn L) in B1. exact B1. }
    pose proof (b64_round_finish s M E HE Hq Hq') as [H1 H2].
    cbv zeta in H1, H2. split; [exact H1|]. rewrite H2.
    rewrite b64_round_pos_canonical by assumption. reflexivity.
  - (* [p] bits are shifted out *)
    assert (Ep : Zpos p = Z.log2 (Zpos M) - 52) by lia.
    rewrite (b64_shr_fexp_pos (Zpos M) E p)
      by (cbn [Zdigits2]; rewrite b64_fexp, b64_digits; exact En).
    rewrite b64_round_loc by lia.
    assert (HPp : 0 < 2 ^ Zpos p) by (apply Z.pow_pos_nonneg; lia).
    assert (Hq0 : 2 ^ 52 <= Zpos M / 2 ^ Zpos p < 2 ^ 53).
    { split.
      - apply Z.div_le_lower_bound; [lia|].
        rewrite <- Z.pow_add_r by lia.
        replace (Zpos p + 52) with (Z.log2 (Zpos M)) by lia. exact B1.
      - apply Z.div_lt_upper_bound; [lia|].
        rewrite <- Z.pow_add_r by lia.
        replace (Zpos p + 53) with (Z.log2 (Zpos M) + 1) by lia. exact B2. }
    pose proof (b64_round_up_bounds (Zpos M / 2 ^ Zpos p)
      (2 * (Zpos M mod 2 ^ Zpos p)) (2 ^ Zpos p)) as HB.
    assert (Ecore : b64_round_pos (Zpos M * 2 ^ (E + 1074)) =
      if b64_round_up (Zpos M / 2 ^ Zpos p) (2 * (Zpos M mod 2 ^ Zpos p))
           (2 ^ Zpos p) * 2 ^ (E + Zpos p + 1074) <? b64_huge
      then b64_round_up (Zpos M / 2 ^ Zpos p) (2 * (Zpos M mod 2 ^ Zpos p))
           (2 ^ Zpos p) * 2 ^ (E + Zpos p + 1074)
      else b64_inf).
    { unfold b64_round_pos. rewrite Z.log2_mul_pow2 by lia.
      replace (Z.max (E + 1074 + Z.log2 (Zpos M) - 52) 0)
        with (E + Zpos p + 1074) by lia.
      replace (E + Zpos p + 1074) with (Zpos p + (E + 1074)) by lia.
      rewrite (Z.pow_add_r 2 (Zpos p) (E + 1074)) by lia.
      rewrite Z.div_mul_cancel_r by lia.
      rewrite Z.mul_mod_distr_r by lia.
      rewrite (Z.mul_assoc 2 (Zpos M mod 2 ^ Zpos p) (2 ^ (E + 1074))).
      rewrite b64_round_up_scale by lia. reflexivity. }
    destruct (b64_round_up (Zpos M / 2 ^ Zpos p)
      (2 * (Zpos M mod 2 ^ Zpos p)) (2 ^ Zpos p)) as [|q|q] eqn:Eq1;
      [lia| |lia].
    assert (HF' : -1074 <= E + Zpos p) by lia.
    assert (Hq : Zpos q <= 2 ^ 53) by lia.
    assert (Hq' : -1074 < E + Zpos p -> 2 ^ 52 <= Zpos q) by lia.
    pose proof (b64_round_finish s q (E + Zpos p) HF' Hq Hq') as [H1 H2].
    cbv zeta in H1, H2. split; [exact H1|]. rewrite H2, Ecore. reflexivity.
  - lia.
Qed.

Lemma b64_shl_align (m : positive) (e e' : Z) :
  snd (shl_align m e e') = Z.min e e' /\
  Zpos (fst (shl_align m e e')) = Zpos m * 2 ^ (e - Z.min e e').
Proof.
  unfold shl_align. destruct (e' - e) as [|d|d] eqn:E; cbn [fst snd].
  - replace (Z.min e e') with e by lia. rewrite Z.sub_diag. split; lia.
  - replace (Z.min e e') with e by lia. rewrite Z.sub_diag. split; lia.
  - replace (Z.min e e') with e' by lia. split; [reflexivity|].
    change (Pos.iter xO m d) with (shift_pos d m).
    rewrite shift_pos_correct.
    replace (e - e') with (Zpos d) by lia.
    change (Z.pow_pos 2 d) with (2 ^ Zpos d). lia.
Qed.

Lemma b64_binary_round (s : bool) (m : positive) (e : Z) :
  -1074 <= e ->
  b64_sf_nan (binary_round prec emax s m e) = false /\
  b64_sv (binary_round prec emax s m e) =
    cond_Zopp s (b64_round_pos (Zpos m * 2 ^ (e + 1074))).
Proof.
  intros He. unfold binary_round.
  pose proof (b64_shl_align m e (fexp prec emax (Zpos (digits2_pos m) + e)))
    as [A1 A2].
  destruct (shl_align m e (fexp prec emax (Zpos (digits2_pos m) + e)))
    as [mz ez] eqn:Es. cbn [fst snd] in A1, A2.
  pose proof (Z.log2_nonneg (Zpos m)) as HL.
  assert (Hfe : fexp prec emax (Zpos (digits2_pos m) + e) =
    Z.max (Z.log2 (Zpos m) + 1 + e - 53) (-1074))
    by (rewrite b64_fexp, b64_digits; reflexivity).
  rewrite <- A1 in A2. rewrite Hfe in A1.
  assert (Hez : -1074 <= ez) by lia.
  assert (Hlog : Z.log2 (Zpos mz) = e - ez + Z.log2 (Zpos m)).
  { rewrite A2. apply Z.log2_mul_pow2; lia. }
  assert (Hc : ez <= fexp prec emax (Zpos (digits2_pos mz) + ez)).
  { rewrite b64_fexp, b64_digits, Hlog. lia. }
  pose proof (b64_binary_round_aux s mz ez Hez Hc) as [H1 H2].
  split; [exact H1|]. rewrite H2. do 2 f_equal.
  rewrite A2, <- Z.mul_assoc, <- Z.pow_add_r by lia.
  do 2 f_equal. lia.
Qed.

Lemma b64_round_opp (N : Z) : b64_round (- N) = - b64_round N.
Proof. destruct N; cbn; lia. Qed.

Lemma b64_round_cond_opp (s : bool) (N : Z) :
  0 < N -> b64_round (cond_Zopp s N) = cond_Zopp s (b64_round_pos N).
Proof.
  intros H. destruct s; cbn [cond_Zopp].
  - rewrite b64_round_opp, b64_round_pos_eq by lia. reflexivity.
  - apply b64_round_pos_eq. exact H.
Qed.

Lemma b64_round_saturates (N : Z) :
  2 ^ 2099 <= N -> b64_round_pos N = b64_inf.
Proof.
  intros H. unfold b64_round_pos.
  assert (HN : 0 < N).
  { assert (0 < 2 ^ 2099) by (apply Z.pow_pos_nonneg; lia). lia. }
  pose proof (Z.log2_spec N HN) as [B1 B2].
  assert (Hl : 2099 <= Z.log2 N).
  { apply Z.log2_le_pow2; [lia|exact H]. }
  replace (Z.max (Z.log2 N - 52) 0) with (Z.log2 N - 52) by lia.
  set (k := Z.log2 N - 52).
  assert (HP : 0 < 2 ^ k) by (apply Z.pow_pos_nonneg; unfold k; lia).
  assert (Hq : 2 ^ 52 <= N / 2 ^ k).
  { apply Z.div_le_lower_bound; [lia|].
    rewrite <- Z.pow_add_r by (unfold k; lia).
    replace (k + 52) with (Z.log2 N) by (unfold k; lia). exact B1. }
  pose proof (b64_round_up_bounds (N / 2 ^ k) (2 * (N mod 2 ^ k)) (2 ^ k)) as HB.
  assert (Hh : b64_huge <= 2 ^ 52 * 2 ^ k).
  { unfold b64_huge. rewrite <- Z.pow_add_r by (unfold k; lia).
    apply Z.pow_le_mono_r; unfold k; lia. }
  destruct (Z.ltb_spec (b64_round_up (N / 2 ^ k) (2 * (N mod 2 ^ k)) (2 ^ k) * 2 ^ k)
    b64_huge); [nia|reflexivity].
Qed.

(** A valid finite number lies strictly between the infinities and is a
    fixed point of the rounding. *)
Lemma b64_sv_finite (s : bool) (m : positive) (e : Z) :
  bounded prec emax m e = true ->
  0 < Zpos m * 2 ^ (e + 1074) < b64_huge /\
  b64_round_pos (Zpos m * 2 ^ (e + 1074)) = Zpos m * 2 ^ (e + 1074).
Proof.
  unfold bounded. intros H. apply andb_true_iff in H. destruct H as [Hc He].
  change (emax - prec) with 971 in He. 
  pose proof (b64_mantissa_bounds m e Hc) as [Hm Hn].
  apply b64_canonical in Hc. destruct Hc as (H1 & H2 & H3).
  assert (HP : 0 < 2 ^ (e + 1074)) by (apply Z.pow_pos_nonneg; lia).
  pose proof (b64_overflow_test (Zpos m) e Hm H1 Hn) as Ho.
  rewrite He in Ho. rewrite b64_round_pos_canonical, Ho by assumption.
  apply Z.ltb_lt in Ho. split; [split; [nia|exact Ho]|reflexivity].
Qed.

Lemma b64_sv_bound (x : spec_float) :
  valid_binary x = true ->
  match x with
  | S754_zero _ | S754_finite _ _ _ => - b64_huge < b64_sv x < b64_huge
  | _ => True
  end.
Proof.
  destruct x as [s|s| |s m e]; intros V; try exact I.
  - cbn. unfold b64_huge. assert (0 < 2 ^ 2098) by (apply Z.pow_pos_nonneg; lia). lia.
  - unfold valid_binary in V; cbn [SpecFloat.valid_binary] in V. pose proof (b64_sv_finite s m e V) as [H _].
    cbn [b64_sv]. destruct s; cbn [cond_Zopp]; lia.
Qed.

Lemma b64_round_valid (x : spec_float) :
  valid_binary x = true -> b64_round (b64_sv x) = b64_sv x.
Proof.
  destruct x as [s|s| |s m e]; intros V; try reflexivity.
  - cbn [b64_sv].
    assert (H : 0 < b64_inf) by (apply Z.pow_pos_nonneg; lia).
    rewrite b64_round_cond_opp by exact H.
    rewrite b64_round_saturates; [reflexivity|].
    unfold b64_inf. apply Z.pow_le_mono_r; lia.
  - unfold valid_binary in V; cbn [SpecFloat.valid_binary] in V. pose proof (b64_sv_finite s m e V) as [H1 H2].
    cbn [b64_sv]. rewrite b64_round_cond_opp by lia. rewrite H2. reflexivity.
Qed.

Lemma b64_inf_pos : 0 < b64_inf.
Proof. apply Z.pow_pos_nonneg; lia. Qed.

Lemma b64_round_inf (s : bool) (v : Z) :
  - b64_huge < v < b64_huge \/ v = cond_Zopp s b64_inf ->
  b64_round (cond_Zopp s b64_inf + v) = cond_Zopp s b64_inf.
Proof.
  intros Hv. pose proof b64_inf_pos as Hi.
  assert (Hh : 2 ^ 2099 + b64_huge <= b64_inf).
  { unfold b64_huge, b64_inf.
    change 2100 with (Z.succ 2099). rewrite Z.pow_succ_r by lia.
    assert (2 ^ 2098 <= 2 ^ 2099) by (apply Z.pow_le_mono_r; lia). lia. }
  assert (Hh0 : 0 < b64_huge) by (apply Z.pow_pos_nonneg; lia).
  destruct s; cbn [cond_Zopp] in *.
  - replace (- b64_inf + v) with (- (b64_inf - v)) by lia.
    rewrite b64_round_opp, b64_round_pos_eq by lia.
    rewrite b64_round_saturates by lia. reflexivity.
  - rewrite b64_round_pos_eq by lia.
    apply b64_round_saturates. lia.
Qed.

Lemma b64_SFadd_nan (x y : spec_float) :
  b64_sf_nan (SFadd prec emax x y) = false ->
  b64_sf_nan x = false /\ b64_sf_nan y = false.
Proof.
  destruct x as [sx|sx| |sx mx ex], y as [sy|sy| |sy my ey];
    cbn; intros H; try discriminate; split; reflexivity.
Qed.

Lemma b64_SFadd_value (x y : spec_float) :
  valid_binary x = true -> valid_binary y = true ->
  b64_sf_nan (SFadd prec emax x y) = false /\
    b64_sv (SFadd prec emax x y) = b64_round (b64_sv x + b64_sv y) \/
  b64_sf_nan x = true \/ b64_sf_nan y = true \/
  (exists s, x = S754_infinity s /\ y = S754_infinity (negb s)).
Proof.
  intros Vx Vy.
  pose proof (b64_sv_bound x Vx) as Bx. pose proof (b64_sv_bound y Vy) as By.
  pose proof (b64_round_valid x Vx) as Rx. pose proof (b64_round_valid y Vy) as Ry.
  destruct x as [sx|sx| |sx mx ex], y as [sy|sy| |sy my ey];
    try (right; left; reflexivity); try (right; right; left; reflexivity).
  - left. split; [destruct sx, sy; reflexivity|]. destruct sx, sy; reflexivity.
  - left. split; [reflexivity|]. cbn [SFadd]. rewrite <- Ry at 1. reflexivity.
  - left. split; [reflexivity|]. cbn [SFadd]. rewrite <- Ry at 1. reflexivity.
  - left. split; [reflexivity|]. cbn [SFadd]. rewrite <- Rx at 1.
    f_equal. cbn [b64_sv]. lia.
  - destruct sx, sy.
    + left. split; [reflexivity|]. cbn [SFadd].
      change (b64_sv (S754_infinity true)) with (cond_Zopp true b64_inf).
      rewrite b64_round_inf; [reflexivity|]. right. reflexivity.
    + right. right. right. exists true. split; reflexivity.
    + right. right. right. exists false. split; reflexivity.
    + left. split; [reflexivity|]. cbn [SFadd].
      change (b64_sv (S754_infinity false)) with (cond_Zopp false b64_inf).
      rewrite b64_round_inf; [reflexivity|]. right. reflexivity.
  - left. split; [reflexivity|]. cbn [SFadd].
    change (b64_sv (S754_infinity sx)) with (cond_Zopp sx b64_inf).
    rewrite b64_round_inf; [reflexivity|]. left. exact By.
  - left. split; [reflexivity|]. cbn [SFadd]. rewrite <- Rx at 1.
    f_equal. cbn [b64_sv]. lia.
  - left. split; [reflexivity|]. cbn [SFadd].
    change (b64_sv (S754_infinity sy)) with (cond_Zopp sy b64_inf).
    rewrite Z.add_comm. rewrite b64_round_inf; [reflexivity|]. left. exact Bx.
  - left. cbn [SFadd].
    unfold valid_binary in Vx, Vy. cbn [SpecFloat.valid_binary] in Vx, Vy.
    unfold bounded in Vx, Vy.
    apply andb_true_iff in Vx. destruct Vx as [Cx _].
    apply andb_true_iff in Vy. destruct Vy as [Cy _].
    apply b64_canonical in Cx. destruct Cx as (Hex & _).
    apply b64_canonical in Cy. destruct Cy as (Hey & _).
    pose proof (b64_shl_align mx ex (Z.min ex ey)) as [_ Ax].
    pose proof (b64_shl_align my ey (Z.min ex ey)) as [_ Ay].
    rewrite Ax, Ay.
    replace (Z.min ex (Z.min ex ey)) with (Z.min ex ey) by lia.
    replace (Z.min ey (Z.min ex ey)) with (Z.min ex ey) by lia.
    set (ez := Z.min ex ey). assert (Hez : -1074 <= ez) by (unfold ez; lia).
    assert (HP : 0 < 2 ^ (ez + 1074)) by (apply Z.pow_pos_nonneg; lia).
    assert (Esum : b64_sv (S754_finite sx mx ex) + b64_sv (S754_finite sy my ey) =
      (cond_Zopp sx (Zpos mx * 2 ^ (ex - ez)) +
       cond_Zopp sy (Zpos my * 2 ^ (ey - ez))) * 2 ^ (ez + 1074)).
    { cbn [b64_sv].
      replace (ex + 1074) with (ex - ez + (ez + 1074)) by lia.
      replace (ey + 1074) with (ey - ez + (ez + 1074)) by lia.
      rewrite (Z.pow_add_r 2 (ex - ez) (ez + 1074)) by (unfold ez; lia).
      rewrite (Z.pow_add_r 2 (ey - ez) (ez + 1074)) by (unfold ez; lia).
      destruct sx, sy; cbn [cond_Zopp]; ring. }
    rewrite Esum.
    destruct (cond_Zopp sx (Zpos mx * 2 ^ (ex - ez)) +
              cond_Zopp sy (Zpos my * 2 ^ (ey - ez))) as [|m|m] eqn:ES;
      cbn [binary_normalize].
    + split; reflexivity.
    + pose proof (b64_binary_round false m ez Hez) as [H1 H2].
      split; [exact H1|]. rewrite H2. cbn [cond_Zopp].
      symmetry. apply b64_round_pos_eq. lia.
    + pose proof (b64_binary_round true m ez Hez) as [H1 H2].
      split; [exact H1|]. rewrite H2. cbn [cond_Zopp].
      change (Zneg m) with (- Zpos m). rewrite Z.mul_opp_l, b64_round_opp.
      rewrite b64_round_pos_eq by lia. reflexivity.
Qed.

Lemma b64_canonical_lt (m1 m2 : positive) (e1 e2 : Z) :
  canonical_mantissa prec emax m1 e1 = true ->
  canonical_mantissa prec emax m2 e2 = true ->
  e1 < e2 ->
  Zpos m1 * 2 ^ (e1 + 1074) < Zpos m2 * 2 ^ (e2 + 1074).
Proof.
  intros C1 C2 He.
  pose proof (b64_mantissa_bounds m1 e1 C1) as [[_ H1] _].
  pose proof (b64_mantissa_bounds m2 e2 C2) as [_ H2].
  apply b64_canonical in C1. destruct C1 as (L1 & _).
  apply b64_canonical in C2. destruct C2 as (L2 & _).
  specialize (H2 ltac:(lia)).
  assert (HP : 0 < 2 ^ (e1 + 1074)) by (apply Z.pow_pos_nonneg; lia).
  replace (e2 + 1074) with (e2 - e1 + (e1 + 1074)) by lia.
  rewrite (Z.pow_add_r 2 (e2 - e1) (e1 + 1074)) by lia.
  assert (2 ^ 1 <= 2 ^ (e2 - e1)) by (apply Z.pow_le_mono_r; lia).
  change (2 ^ 1) with 2 in *.
  change (2 ^ 53) with 9007199254740992 in H1.
  change (2 ^ 52) with 4503599627370496 in H2.
  assert (Hlt : Zpos m1 < Zpos m2 * 2 ^ (e2 - e1)) by nia.
  rewrite Z.mul_assoc. apply Z.mul_lt_mono_pos_r; assumption.
Qed.

Lemma b64_SFcompare (x y : spec_float) :
  valid_binary x = true -> valid_binary y = true ->
  b64_sf_nan x = false -> b64_sf_nan y = false ->
  SFcompare x y = Some (b64_sv x ?= b64_sv y).
Proof.
  intros Vx Vy Nx Ny.
  pose proof (b64_sv_bound x Vx) as Bx. pose proof (b64_sv_bound y Vy) as By.
  pose proof b64_huge_lt_inf as Hhi. pose proof b64_inf_pos as Hi.
  destruct x as [sx|sx| |sx mx ex], y as [sy|sy| |sy my ey];
    try discriminate; cbn [SFcompare]; f_equal; symmetry.
  - cbn [b64_sv]. destruct sy; cbn [cond_Zopp];
      [apply Z.compare_gt_iff|apply Z.compare_lt_iff]; lia.
  - unfold valid_binary in Vy. cbn [SpecFloat.valid_binary] in Vy.
    pose proof (b64_sv_finite sy my ey Vy) as [H _].
    cbn [b64_sv]. destruct sy; cbn [cond_Zopp];
      [apply Z.compare_gt_iff|apply Z.compare_lt_iff]; lia.
  - cbn [b64_sv]. destruct sx; cbn [cond_Zopp];
      [apply Z.compare_lt_iff|apply Z.compare_gt_iff]; lia.
  - cbn [b64_sv]. destruct sx, sy; cbn [cond_Zopp];
      first [apply Z.compare_eq_iff; lia | apply Z.compare_lt_iff; lia
            | apply Z.compare_gt_iff; lia].
  - change (b64_sv (S754_infinity sx)) with (cond_Zopp sx b64_inf).
    destruct sx; cbn [cond_Zopp];
      [apply Z.compare_lt_iff|apply Z.compare_gt_iff]; lia.
  - unfold valid_binary in Vx. cbn [SpecFloat.valid_binary] in Vx.
    pose proof (b64_sv_finite sx mx ex Vx) as [H _].
    cbn [b64_sv]. destruct sx; cbn [cond_Zopp];
      [apply Z.compare_lt_iff|apply Z.compare_gt_iff]; lia.
  - change (b64_sv (S754_infinity sy)) with (cond_Zopp sy b64_inf).
    destruct sy; cbn [cond_Zopp];
      [apply Z.compare_gt_iff|apply Z.compare_lt_iff]; lia.
  - unfold valid_binary in Vx, Vy. cbn [SpecFloat.valid_binary] in Vx, Vy.
    pose proof (b64_sv_finite sx mx ex Vx) as [Hx _].
    pose proof (b64_sv_finite sy my ey Vy) as [Hy _].
    unfold bounded in Vx, Vy.
    apply andb_true_iff in Vx. destruct Vx as [Cx _].
    apply andb_true_iff in Vy. destruct Vy as [Cy _].
    cbn [b64_sv].
    destruct sx, sy; cbn [cond_Zopp].
    + destruct (Z.compare_spec ex ey) as [E|E|E].
      * subst ey. change (Pos.compare_cont Eq mx my) with (Pos.compare mx my).
        assert (HP : 0 < 2 ^ (ex + 1074)) by lia.
        destruct (Pos.compare_spec mx my) as [Em|Em|Em]; cbn [CompOpp].
        -- subst. apply Z.compare_eq_iff. reflexivity.
        -- apply Z.compare_gt_iff. apply Pos2Z.pos_lt_pos in Em. nia.
        -- apply Z.compare_lt_iff. apply Pos2Z.pos_lt_pos in Em. nia.
      * apply Z.compare_gt_iff.
        pose proof (b64_canonical_lt mx my ex ey Cx Cy E). lia.
      * apply Z.compare_lt_iff.
        pose proof (b64_canonical_lt my mx ey ex Cy Cx E). lia.
    + apply Z.compare_lt_iff. lia.
    + apply Z.compare_gt_iff. lia.
    + destruct (Z.compare_spec ex ey) as [E|E|E].
      * subst ey. change (Pos.compare_cont Eq mx my) with (Pos.compare mx my).
        assert (HP : 0 < 2 ^ (ex + 1074)) by lia.
        destruct (Pos.compare_spec mx my) as [Em|Em|Em].
        -- subst. apply Z.compare_eq_iff. reflexivity.
        -- apply Z.compare_lt_iff. apply Pos2Z.pos_lt_pos in Em. nia.
        -- apply Z.compare_gt_iff. apply Pos2Z.pos_lt_pos in Em. nia.
      * apply Z.compare_lt_iff.
        pose proof (b64_canonical_lt mx my ex ey Cx Cy E). lia.
      * apply Z.compare_gt_iff.
        pose proof (b64_canonical_lt my mx ey ex Cy Cx E). lia.
Qed.

End B64Spec.

(** ** Binary64: order, addition and the products by 0 and 1 *)

Section B64Prim.

Open Scope Z_scope.


Lemma b64_finite_not_nan (x : float) : b64_finite x = true -> b64_nan x = false.
Proof.
  unfold b64_finite, b64_nan. destruct (Prim2SF x); cbn; congruence.
Qed.

Lemma b64_nan_sf (x : float) : b64_nan x = b64_sf_nan (Prim2SF x).
Proof. reflexivity. Qed.

Lemma b64_compare_value (x y : float) :
  b64_nan x = false -> b64_nan y = false ->
  SFcompare (Prim2SF x) (Prim2SF y) = Some (b64_value x ?= b64_value y).
Proof.
  intros Nx Ny. apply b64_SFcompare; try apply Prim2SF_valid; assumption.
Qed.

Lemma b64_leb_iff (x y : float) :
  PrimFloat.leb x y = true <->
  b64_nan x = false /\ b64_nan y = false /\ b64_value x <= b64_value y.
Proof.
  rewrite leb_spec. unfold SFleb.
  destruct (b64_nan x) eqn:Nx.
  { unfold b64_nan in Nx. destruct (Prim2SF x); cbn in Nx; try discriminate.
    cbn. split; [discriminate|intros (H & _); discriminate]. }
  destruct (b64_nan y) eqn:Ny.
  { unfold b64_nan in Ny. destruct (Prim2SF y); cbn in Ny; try discriminate.
    destruct (Prim2SF x); cbn; (split; [discriminate|intros (_ & H & _); discriminate]). }
  rewrite (b64_compare_value x y Nx Ny).
  destruct (Z.compare_spec (b64_value x) (b64_value y)); split;
    intros H'; try (repeat split; try reflexivity; lia);
    try discriminate; destruct H' as (_ & _ & H'); lia.
Qed.

Lemma b64_ltb_iff (x y : float) :
  PrimFloat.ltb x y = true <->
  b64_nan x = false /\ b64_nan y = false /\ b64_value x < b64_value y.
Proof.
  rewrite ltb_spec. unfold SFltb.
  destruct (b64_nan x) eqn:Nx.
  { unfold b64_nan in Nx. destruct (Prim2SF x); cbn in Nx; try discriminate.
    cbn. split; [discriminate|intros (H & _); discriminate]. }
  destruct (b64_nan y) eqn:Ny.
  { unfold b64_nan in Ny. destruct (Prim2SF y); cbn in Ny; try discriminate.
    destruct (Prim2SF x); cbn; (split; [discriminate|intros (_ & H & _); discriminate]). }
  rewrite (b64_compare_value x y Nx Ny).
  destruct (Z.compare_spec (b64_value x) (b64_value y)); split;
    intros H'; try (repeat split; try reflexivity; lia);
    try discriminate; destruct H' as (_ & _ & H'); lia.
Qed.

Lemma b64_ltb_leb (x y : float) :
  PrimFloat.ltb x y = true -> PrimFloat.leb x y = true.
Proof.
  intros H. apply b64_ltb_iff in H. apply b64_leb_iff.
  destruct H as (H1 & H2 & H3). repeat split; try assumption. lia.
Qed.

Lemma b64_leb_false (x y : float) :
  b64_nan x = false -> b64_nan y = false ->
  PrimFloat.leb x y = false -> b64_value y < b64_value x.
Proof.
  intros Nx Ny H.
  destruct (Z.lt_ge_cases (b64_value y) (b64_value x)) as [L|L]; [exact L|].
  exfalso. assert (T : PrimFloat.leb x y = true)
    by (apply b64_leb_iff; repeat split; assumption).
  congruence.
Qed.

Lemma b64_leb_trans (x y z : float) :
  PrimFloat.leb x y = true -> PrimFloat.leb y z = true ->
  PrimFloat.leb x z = true.
Proof.
  intros H1 H2. apply b64_leb_iff in H1. apply b64_leb_iff in H2.
  apply b64_leb_iff. destruct H1 as (A & B & C), H2 as (D & E & F).
  repeat split; try assumption. lia.
Qed.

Lemma b64_leb_below (x y z : float) :
  PrimFloat.leb x y = true -> PrimFloat.leb z y = false ->
  b64_nan z = false -> PrimFloat.leb z x = false.
Proof.
  intros H1 H2 Nz. apply b64_leb_iff in H1. destruct H1 as (A & B & C).
  pose proof (b64_leb_false z y Nz B H2) as L.
  destruct (PrimFloat.leb z x) eqn:E; [|reflexivity].
  apply b64_leb_iff in E. destruct E as (_ & _ & E). lia.
Qed.

Lemma b64_add_value (x y : float) :
  b64_nan (x + y) = false ->
  b64_nan x = false /\ b64_nan y = false /\
  b64_value (x + y) = b64_round (b64_value x + b64_value y).
Proof.
  unfold b64_nan at 1, b64_value at 1. rewrite add_spec. intros H.
  change (b64_sf_nan (SFadd prec emax (Prim2SF x) (Prim2SF y)) = false) in H.
  pose proof (b64_SFadd_nan _ _ H) as [Nx Ny].
  destruct (b64_SFadd_value (Prim2SF x) (Prim2SF y)
    (Prim2SF_valid x) (Prim2SF_valid y)) as [[_ V]|[N|[N|(s & Ex & Ey)]]].
  - repeat split; assumption.
  - congruence.
  - congruence.
  - rewrite Ex, Ey in H. destruct s; discriminate.
Qed.

Lemma b64_add_not_nan (x y : float) :
  b64_nan x = false -> b64_nan y = false ->
  b64_finite x = true \/ b64_finite y = true ->
  b64_nan (x + y) = false.
Proof.
  intros Nx Ny Hf. unfold b64_nan at 1. rewrite add_spec.
  change (b64_sf_nan (SFadd prec emax (Prim2SF x) (Prim2SF y)) = false).
  destruct (b64_SFadd_value (Prim2SF x) (Prim2SF y)
    (Prim2SF_valid x) (Prim2SF_valid y)) as [[N _]|[N|[N|(s & Ex & Ey)]]].
  - exact N.
  - rewrite b64_nan_sf in Nx. congruence.
  - rewrite b64_nan_sf in Ny. congruence.
  - unfold b64_finite in Hf. rewrite Ex, Ey in Hf.
    destruct Hf; discriminate.
Qed.

Lemma b64_finite_bound (x : float) :
  b64_finite x = true -> - b64_huge < b64_value x < b64_huge.
Proof.
  unfold b64_finite, b64_value. intros H.
  pose proof (b64_sv_bound (Prim2SF x) (Prim2SF_valid x)) as B.
  destruct (Prim2SF x); try discriminate; exact B.
Qed.

Lemma b64_finite_between (lo hi x : float) :
  b64_finite lo = true -> b64_finite hi = true ->
  PrimFloat.leb lo x = true -> PrimFloat.leb x hi = true ->
  b64_finite x = true.
Proof.
  intros Fl Fh H1 H2.
  apply b64_leb_iff in H1. apply b64_leb_iff in H2.
  destruct H1 as (_ & Nx & L1), H2 as (_ & _ & L2).
  pose proof (b64_finite_bound lo Fl). pose proof (b64_finite_bound hi Fh).
  pose proof b64_huge_lt_inf.
  unfold b64_finite, b64_nan, b64_value in *.
  destruct (Prim2SF x) as [s|s| |s m e]; try reflexivity; try discriminate.
  cbn [b64_sv] in L1, L2. destruct s; cbn [cond_Zopp] in L1, L2; lia.
Qed.

Lemma b64_add_mono (x x' y y' : float) :
  PrimFloat.leb x x' = true -> PrimFloat.leb y y' = true ->
  b64_nan (x + y) = false -> b64_nan (x' + y') = false ->
  PrimFloat.leb (x + y) (x' + y') = true.
Proof.
  intros Hx Hy N N'.
  apply b64_leb_iff in Hx. apply b64_leb_iff in Hy.
  destruct Hx as (_ & _ & Hx), Hy as (_ & _ & Hy).
  apply b64_leb_iff. repeat split; try assumption.
  apply b64_add_value in N. apply b64_add_value in N'.
  destruct N as (_ & _ & ->), N' as (_ & _ & ->).
  apply b64_round_mono. lia.
Qed.

(** Sums of numbers between finite bounds lie between the sums of the
    bounds. *)
Lemma b64_add_bounds (l1 h1 l2 h2 x y : float) :
  b64_finite l1 = true -> b64_finite h1 = true ->
  b64_finite l2 = true -> b64_finite h2 = true ->
  PrimFloat.leb l1 x = true -> PrimFloat.leb x h1 = true ->
  PrimFloat.leb l2 y = true -> PrimFloat.leb y h2 = true ->
  PrimFloat.leb (l1 + l2) (x + y) = true /\
  PrimFloat.leb (x + y) (h1 + h2) = true.
Proof.
  intros F1 F2 F3 F4 A B C D.
  pose proof (b64_finite_between l1 h1 x F1 F2 A B) as Fx.
  pose proof (b64_finite_between l2 h2 y F3 F4 C D) as Fy.
  assert (N : forall a b, b64_finite a = true -> b64_finite b = true ->
                          b64_nan (a + b) = false).
  { intros a b Fa Fb. apply b64_add_not_nan; auto using b64_finite_not_nan. }
  split; apply b64_add_mono; auto.
Qed.

Lemma b64_round_aux_one (s : bool) (m : positive) (e : Z) :
  bounded prec emax m e = true ->
  binary_round_aux prec emax s (Zpos (4503599627370496 * m)) (-52 + e)
    loc_Exact = S754_finite s m e.
Proof.
  unfold bounded. intros H. apply andb_true_iff in H. destruct H as [Hc He].
  change (emax - prec) with 971 in He.
  pose proof Hc as Hc'. unfold canonical_mantissa in Hc'.
  apply Z.eqb_eq in Hc'. rewrite b64_fexp, b64_digits in Hc'.
  assert (EM : Zpos (4503599627370496 * m) = Zpos m * 2 ^ 52)
    by (rewrite Pos2Z.inj_mul; change (2 ^ 52) with 4503599627370496; lia).
  unfold binary_round_aux.
  rewrite (b64_shr_fexp_pos _ _ 52).
  2:{ cbn [Zdigits2]. rewrite b64_fexp, b64_digits, EM.
      rewrite Z.log2_mul_pow2 by lia. lia. }
  rewrite b64_shr_iter by lia.
  rewrite EM.
  change (Zpos 52 - 1) with 51.
  replace (Zpos m * 2 ^ 52 / 2 ^ 52) with (Zpos m) by (rewrite Z.div_mul; lia).
  replace (Zpos m * 2 ^ 52 / 2 ^ 51) with (Zpos m * 2).
  2:{ change (2 ^ 52) with (2 * 2 ^ 51). rewrite Z.mul_assoc, Z.div_mul; lia. }
  replace (Zpos m * 2 ^ 52 mod 2 ^ 51) with 0.
  2:{ change (2 ^ 52) with (2 * 2 ^ 51). rewrite Z.mul_assoc, Z.mod_mul; lia. }
  rewrite Z.odd_mul. change (Z.odd 2) with false. rewrite andb_false_r.
  cbn [Z.eqb negb orb loc_of_shr_record shr_m shr_r shr_s round_nearest_even].
  replace (-52 + e + Zpos 52) with e by lia.
  rewrite (b64_shr_fexp_0 (Zpos m) e).
  2:{ cbn [Zdigits2]. rewrite b64_fexp, b64_digits. lia. }
  cbn [shr_m]. change (emax - prec) with 971. rewrite He. reflexivity.
Qed.

Lemma b64_mul_1 (x : float) : PrimFloat.mul 1 x = x.
Proof.
  apply Prim2SF_inj. rewrite mul_spec.
  change (Prim2SF 1) with (S754_finite false 4503599627370496 (-52)).
  pose proof (Prim2SF_valid x) as V.
  destruct (Prim2SF x) as [s|s| |s m e]; try reflexivity.
  cbn [SFmul xorb]. apply b64_round_aux_one. exact V.
Qed.

Lemma b64_mul_0 (x : float) :
  b64_finite x = true ->
  b64_finite (PrimFloat.mul 0 x) = true /\ b64_value (PrimFloat.mul 0 x) = 0.
Proof.
  unfold b64_finite, b64_value. rewrite mul_spec.
  change (Prim2SF 0) with (S754_zero false).
  destruct (Prim2SF x); try discriminate; intros _; split; reflexivity.
Qed.

Lemma b64_mul_0_finite (x : float) :
  b64_nan (PrimFloat.mul 0 x) = false -> b64_finite x = true.
Proof.
  unfold b64_finite, b64_nan. rewrite mul_spec.
  change (Prim2SF 0) with (S754_zero false).
  destruct (Prim2SF x); try discriminate; reflexivity.
Qed.

End B64Prim.

(** ** The two-input problems *)

Section TwoInputs.

Context {F : Type} {num : Num F}.

Lemma perceptron_2 (x0 x1 w0 w1 t : F) :
  perceptron [x0; x1] [w0; w1] t
  = Ok (if nge (nadd (dot_from (of_int 0) [x0; x1] [w0; w1])
                     (nmul bias_weight (of_int 1))) t
        then 1%Z else 0%Z).
Proof.
  unfold perceptron, activation_level, np_dot.
  cbn [length Nat.eqb rbind].
  destruct (nge _ _); reflexivity.
Qed.

Lemma outputs_2 (w0 w1 t : F) :
  batch_outputs_of sample_data t [w0; w1]
  = Ok (map (fun x : list F =>
               if nge (nadd (dot_from (of_int 0) x [w0; w1])
                            (nmul bias_weight (of_int 1))) t
               then 1%Z else 0%Z) sample_data).
Proof.
  unfold batch_outputs_of, sample_data. cbn [map_result map].
  rewrite !perceptron_2. reflexivity.
Qed.


Lemma chain_2 (w0 w1 lr : F) (o0 o1 o2 o3 l0 l1 l2 l3 : Z) :
  batch_chain sample_data [l0; l1; l2; l3] lr [o0; o1; o2; o3] [w0; w1]
  = Ok [delta_rule o3 l3 lr (of_int 1)
          (delta_rule o2 l2 lr (of_int 1)
             (delta_rule o1 l1 lr (of_int 0)
                (delta_rule o0 l0 lr (of_int 0) w0)));
        delta_rule o3 l3 lr (of_int 1)
          (delta_rule o2 l2 lr (of_int 0)
             (delta_rule o1 l1 lr (of_int 1)
                (delta_rule o0 l0 lr (of_int 0) w1)))].
Proof.
  unfold batch_chain, sample_data. cbn [combine fold_result fst snd].
  rewrite !adjust_weights_eq. cbn [length Nat.leb combine map rbind].
  rewrite !adjust_weights_eq. cbn [length Nat.leb combine map rbind].
  rewrite !adjust_weights_eq. cbn [length Nat.leb combine map rbind].
  rewrite !adjust_weights_eq. cbn [length Nat.leb combine map rbind].
  reflexivity.
Qed.

(** One batch of the loop on the four rows of [sample_data], given its
    outputs. *)
Lemma loop_step_2 (n : nat) (w0 w1 t lr : F) (o0 o1 o2 o3 l0 l1 l2 l3 : Z)
    (out : list (event F)) :
  batch_outputs_of sample_data t [w0; w1] = Ok [o0; o1; o2; o3] ->
  batch_loop sample_data [l0; l1; l2; l3] t lr (S n) [w0; w1] out
  = batch_loop sample_data [l0; l1; l2; l3] t lr n
      [delta_rule o3 l3 lr (of_int 1)
         (delta_rule o2 l2 lr (of_int 1)
            (delta_rule o1 l1 lr (of_int 0)
               (delta_rule o0 l0 lr (of_int 0) w0)));
       delta_rule o3 l3 lr (of_int 1)
         (delta_rule o2 l2 lr (of_int 0)
            (delta_rule o1 l1 lr (of_int 1)
               (delta_rule o0 l0 lr (of_int 0) w1)))]
      (out ++ [PreBatch [w0; w1];
               PostBatch
                 [delta_rule o3 l3 lr (of_int 1)
                    (delta_rule o2 l2 lr (of_int 1)
                       (delta_rule o1 l1 lr (of_int 0)
                          (delta_rule o0 l0 lr (of_int 0) w0)));
                  delta_rule o3 l3 lr (of_int 1)
                    (delta_rule o2 l2 lr (of_int 0)
                       (delta_rule o1 l1 lr (of_int 1)
                          (delta_rule o0 l0 lr (of_int 0) w1)))]
                 [o0; o1; o2; o3] [l0; l1; l2; l3]]).
Proof.
  intros Ho. cbn [batch_loop]. unfold bind.
  rewrite batch_body_eq by (simpl; lia).
  rewrite Ho, chain_2. reflexivity.
Qed.

End TwoInputs.

(** ** Binary64: the two-input problems *)

Section FloatTwoInputs.

Open Scope float_scope.

Lemma float_of_int_0 : float_of_int 0 = 0.
Proof. reflexivity. Qed.

Lemma float_of_int_1 : float_of_int 1 = 1.
Proof. reflexivity. Qed.

(** The outputs of a batch on the four rows of [sample_data]: the products
    by the feature 1 are the weights themselves. *)
Lemma float_outputs_2 (w0 w1 t : float) :
  batch_outputs_of (F:=float) sample_data t [w0; w1]
  = Ok [if PrimFloat.leb t (0 + 0 * w0 + 0 * w1 + float_of_dec 2 1 * 1) then 1%Z else 0%Z;
        if PrimFloat.leb t (0 + 0 * w0 + w1 + float_of_dec 2 1 * 1) then 1%Z else 0%Z;
        if PrimFloat.leb t (0 + w0 + 0 * w1 + float_of_dec 2 1 * 1) then 1%Z else 0%Z;
        if PrimFloat.leb t (0 + w0 + w1 + float_of_dec 2 1 * 1) then 1%Z else 0%Z].
Proof.
  rewrite outputs_2. unfold sample_data, bias_weight.
  cbn [map dot_from nadd nmul nge of_int of_dec float_Num].
  rewrite float_of_int_0, float_of_int_1, !b64_mul_1. reflexivity.
Qed.

Lemma b64_between_const (c : float) :
  b64_finite c = true -> b64_between c c c.
Proof.
  intros Hc. pose proof (b64_finite_not_nan c Hc) as N.
  assert (L : PrimFloat.leb c (c) = true) by (apply b64_leb_iff; repeat split; auto; lia).
  repeat split; assumption.
Qed.

Lemma b64_between_finite (lo hi x : float) :
  b64_between lo hi x -> b64_finite x = true.
Proof.
  intros (A & B & C & D). exact (b64_finite_between lo hi x A B C D).
Qed.

Lemma b64_between_add (l1 h1 l2 h2 x y : float) :
  b64_between l1 h1 x -> b64_between l2 h2 y ->
  b64_finite (l1 + l2) = true -> b64_finite (h1 + h2) = true ->
  b64_between (l1 + l2) (h1 + h2) (x + y).
Proof.
  intros (A1 & B1 & C1 & D1) (A2 & B2 & C2 & D2) Fl Fh.
  destruct (b64_add_bounds l1 h1 l2 h2 x y A1 B1 A2 B2 C1 D1 C2 D2) as [L U].
  repeat split; assumption.
Qed.

Lemma b64_between_mul_0 (lo hi x : float) :
  b64_between lo hi x -> b64_between 0 0 (0 * x).
Proof.
  intros Hx. apply b64_between_finite in Hx.
  destruct (b64_mul_0 x Hx) as [Hf Hv].
  pose proof (b64_finite_not_nan _ Hf) as N.
  repeat split; try reflexivity;
    apply b64_leb_iff; repeat split; try assumption; try reflexivity;
    rewrite Hv; vm_compute; discriminate.
Qed.

Lemma b64_between_ge (t lo hi x : float) :
  b64_between lo hi x -> PrimFloat.leb t (lo) = true -> PrimFloat.leb t (x) = true.
Proof.
  intros (_ & _ & C & _) H. exact (b64_leb_trans t lo x H C).
Qed.

Lemma b64_between_lt (t lo hi x : float) :
  b64_between lo hi x -> PrimFloat.leb t (hi) = false -> b64_nan t = false ->
  PrimFloat.leb t (x) = false.
Proof.
  intros (_ & _ & _ & D) H N. exact (b64_leb_below x hi t D H N).
Qed.

Lemma b64_between_open (lo hi x : float) :
  b64_finite lo = true -> b64_finite hi = true ->
  PrimFloat.ltb lo x = true -> PrimFloat.ltb x hi = true -> b64_between lo hi x.
Proof.
  intros A B C D. repeat split; auto using b64_ltb_leb.
Qed.

End FloatTwoInputs.

(** Bounds for a sum of weights, products by the feature 0 and constants:
    the sums of the bounds. *)
Ltac b64_bounds :=
  lazymatch goal with
  | |- b64_between _ _ (PrimFloat.add _ _) =>
      eapply b64_between_add;
      [b64_bounds | b64_bounds | vm_compute; reflexivity
      | vm_compute; reflexivity]
  | |- b64_between _ _ (PrimFloat.mul 0%float _) =>
      eapply b64_between_mul_0; b64_bounds
  | |- b64_between _ _ _ =>
      first [eassumption | apply b64_between_const; vm_compute; reflexivity]
  end.

Section FloatXor.

Open Scope float_scope.


End FloatXor.

(** ** Binary64: the runs on the logical-or and exclusive-or data *)

Section FloatRuns.

Open Scope float_scope.

Lemma float_outputs_decided (w0 w1 t : float) (b0 b1 b2 b3 : bool) :
  PrimFloat.leb t (0 + 0 * w0 + 0 * w1 + float_of_dec 2 1 * 1) = b0 ->
  PrimFloat.leb t (0 + 0 * w0 + w1 + float_of_dec 2 1 * 1) = b1 ->
  PrimFloat.leb t (0 + w0 + 0 * w1 + float_of_dec 2 1 * 1) = b2 ->
  PrimFloat.leb t (0 + w0 + w1 + float_of_dec 2 1 * 1) = b3 ->
  batch_outputs_of (F:=float) sample_data t [w0; w1]
  = Ok [if b0 then 1%Z else 0%Z; if b1 then 1%Z else 0%Z;
        if b2 then 1%Z else 0%Z; if b3 then 1%Z else 0%Z].
Proof.
  intros <- <- <- <-. apply float_outputs_2.
Qed.


End FloatRuns.

(** Whether the unit fires, from bounds on the weights. *)
Ltac b64_decide :=
  lazymatch goal with
  | |- PrimFloat.leb _ _ = true =>
      eapply b64_between_ge; [b64_bounds | vm_compute; reflexivity]
  | |- PrimFloat.leb _ _ = false =>
      eapply b64_between_lt;
      [b64_bounds | vm_compute; reflexivity | vm_compute; reflexivity]
  end.

(** One batch of the loop on [sample_data] from weights with known bounds:
    the outputs [b0 .. b3] are checked, the loop is stepped, and the new
    weights are given their bounds. *)
Ltac b64_batch b0 b1 b2 b3 :=
  lazymatch goal with
  | |- context [batch_loop _ _ ?t ?lr (S ?n) [?w0; ?w1] ?out] =>
      let Ho := fresh "Ho" in
      assert (Ho : batch_outputs_of (F:=float) sample_data t [w0; w1]
                   = Ok [if b0 then 1%Z else 0%Z; if b1 then 1%Z else 0%Z;
                         if b2 then 1%Z else 0%Z; if b3 then 1%Z else 0%Z])
        by (apply (float_outputs_decided w0 w1 t b0 b1 b2 b3); b64_decide);
      rewrite (loop_step_2 n w0 w1 t lr _ _ _ _ _ _ _ _ out Ho);
      clear Ho; unfold delta_rule;
      cbn [nadd nmul of_int of_dec float_Num]
  end;
  lazymatch goal with
  | |- context [batch_loop _ _ _ _ _ [?a; ?b] _] =>
      let Ba := fresh "Ba" in
      let Bb := fresh "Bb" in
      eassert (Ba : b64_between _ _ a) by b64_bounds;
      eassert (Bb : b64_between _ _ b) by b64_bounds;
      let a' := fresh "a" in
      let b' := fresh "b" in
      set (a' := a) in *; set (b' := b) in *; clearbody a' b'
  end.

Section FloatOr.

Open Scope float_scope.

(** Learning rate 1, from weights between 0 and 0.001: the first batch
    fires nowhere and adds 2 to both weights, the second gives the
    labels. *)
Lemma float_or_rate_1 (w0 w1 : float) (n : nat) :
  b64_between 0 (float_of_dec 1 3) w0 ->
  b64_between 0 (float_of_dec 1 3) w1 ->
  exists rest,
    printed_outputs
      (fst (batch_loop (F:=float) sample_data expected_results
              (of_dec 5 1) (of_int 1) (S (S n)) [w0; w1] []))
    = [0; 0; 0; 0]%Z :: [0; 1; 1; 1]%Z :: rest.
Proof.
  intros B0 B1. unfold expected_results.
  cbn [of_dec of_int float_Num].
  b64_batch false false false false.
  b64_batch false true true true.
  match goal with
  | |- context [batch_loop _ _ ?t ?lr n ?w ?out] =>
      destruct (batch_loop_extends sample_data [0; 1; 1; 1]%Z t lr n w out)
        as (rest & ->)
  end.
  rewrite !printed_outputs_app. simpl. eauto.
Qed.

Lemma float_or_rate_20 (w0 w1 : float) (n : nat) :
  b64_between 0 (float_of_dec 1 3) w0 ->
  b64_between 0 (float_of_dec 1 3) w1 ->
  exists rest,
    printed_outputs
      (fst (batch_loop (F:=float) sample_data expected_results
              (of_dec 5 1) (of_dec 5 2) (S (S (S (S (S n))))) [w0; w1] []))
    = [0; 0; 0; 0]%Z :: [0; 0; 0; 0]%Z :: [0; 0; 0; 1]%Z :: [0; 0; 0; 1]%Z
      :: [0; 1; 1; 1]%Z :: rest.
Proof.
  intros B0 B1. unfold expected_results.
  cbn [of_dec of_int float_Num].
  b64_batch false false false false.
  b64_batch false false false false.
  b64_batch false false false true.
  b64_batch false false false true.
  b64_batch false true true true.
  match goal with
  | |- context [batch_loop _ _ ?t ?lr n ?w ?out] =>
      destruct (batch_loop_extends sample_data [0; 1; 1; 1]%Z t lr n w out)
        as (rest & ->)
  end.
  rewrite !printed_outputs_app. simpl. eauto.
Qed.

(** Whatever the learning rate, the first batch fires nowhere. *)
Lemma float_or_first_batch (w0 w1 lr : float) (n : nat) :
  b64_between 0 (float_of_dec 1 3) w0 ->
  b64_between 0 (float_of_dec 1 3) w1 ->
  exists rest,
    printed_outputs
      (fst (batch_loop (F:=float) sample_data expected_results
              (of_dec 5 1) lr (S n) [w0; w1] []))
    = [0; 0; 0; 0]%Z :: rest.
Proof.
  intros B0 B1. unfold expected_results.
  cbn [of_dec of_int float_Num].
  assert (Ho : batch_outputs_of (F:=float) sample_data (float_of_dec 5 1)
                 [w0; w1] = Ok [0; 0; 0; 0]%Z)
    by (apply (float_outputs_decided w0 w1 _ false false false false);
        b64_decide).
  rewrite (loop_step_2 n w0 w1 _ lr _ _ _ _ _ _ _ _ [] Ho).
  match goal with
  | |- context [batch_loop _ _ ?t ?lr n ?w ?out] =>
      destruct (batch_loop_extends sample_data [0; 1; 1; 1]%Z t lr n w out)
        as (rest & ->)
  end.
  rewrite !printed_outputs_app. simpl. eauto.
Qed.

End FloatOr.

(** ** Exclusive or *)

Section Convergence.

Context {F : Type} {num : Num F}.

Lemma first_converged_none (labels : list Z) (outs : list (list Z)) :
  (forall o, In o outs -> o <> labels) ->
  first_converged labels outs = None.
Proof.
  induction outs as [|o outs IH]; intros H; [reflexivity|].
  cbn [first_converged].
  destruct (list_eq_dec Z.eq_dec o labels) as [E|_].
  - exfalso. exact (H o (or_introl eq_refl) E).
  - rewrite IH; [reflexivity|]. intros o' Ho'. apply H. right. exact Ho'.
Qed.

End Convergence.




(** ** Logical or: the number of batches *)

(** The recorded runs of the notebook on the logical-or data, on
    binary64: learning rate 1 prints the labels from the second batch on
    and keeps running; learning rate 0.05 prints them from the fifth. *)
Lemma or_recorded_runs :
  printed_outputs
    (fst (train_perceptron (F:=float) sample_data expected_results
            recorded_weights (of_dec 5 1) 5 (of_int 1) []))
  = [[0; 0; 0; 0]; [0; 1; 1; 1]; [0; 1; 1; 1]; [0; 1; 1; 1];
     [0; 1; 1; 1]]%Z
  /\ batches_to_converge (F:=float) sample_data expected_results
       recorded_weights (of_dec 5 1) 5 (of_int 1) = Some 2%nat
  /\ batches_to_converge (F:=float) sample_data expected_results
       recorded_weights (of_dec 5 1) 10 (of_dec 5 2) = Some 5%nat.
Proof. repeat split; vm_compute; reflexivity. Qed.

(** The notebook's "small random float 0 < w < .001", as bounds. *)
Lemma float_small_weight (w : float) :
  PrimFloat.ltb (of_int 0) w = true ->
  PrimFloat.ltb w (of_dec 1 3) = true ->
  b64_between 0 (float_of_dec 1 3) w.
Proof.
  intros H0 H1. apply b64_between_open; try assumption; reflexivity.
Qed.

(** C7: on the logical-or data, with threshold 0.5 and learning rate 1, on
    binary64, for every initial weight vector with entries between 0 and
    0.001 (the notebook's "small random float 0 < w < .001") and at least
    two batches, the first batch whose outputs equal the labels is the
    second; so it is in the notebook's recorded run. *)
Theorem C7_or_converges_in_two_batches :
  (forall (w0 w1 : float) (numBatches : Z),
      PrimFloat.ltb (of_int 0) w0 = true ->
      PrimFloat.ltb w0 (of_dec 1 3) = true ->
      PrimFloat.ltb (of_int 0) w1 = true ->
      PrimFloat.ltb w1 (of_dec 1 3) = true ->
      (2 <= numBatches)%Z ->
      batches_to_converge (F:=float) sample_data expected_results [w0; w1]
        (of_dec 5 1) numBatches (of_int 1) = Some 2%nat)
  /\ batches_to_converge (F:=float) sample_data expected_results
       recorded_weights (of_dec 5 1) 5 (of_int 1) = Some 2%nat.
Proof.
  split; [|exact (proj1 (proj2 or_recorded_runs))].
  intros w0 w1 numBatches Hp0 Hs0 Hp1 Hs1 Hn. unfold batches_to_converge.
  rewrite train_perceptron_trace.
  destruct (Z.to_nat numBatches) as [|[|n]] eqn:En; [lia|lia|].
  destruct (float_or_rate_1 w0 w1 n (float_small_weight w0 Hp0 Hs0)
              (float_small_weight w1 Hp1 Hs1)) as (rest & ->).
  reflexivity.
Qed.

(** Both weights 0.0005, five batches. *)
Lemma C7_or_converges_in_two_batches_witness :
  PrimFloat.ltb (of_int 0) (float_of_dec 5 4) = true
  /\ PrimFloat.ltb (float_of_dec 5 4) (of_dec 1 3) = true
  /\ (2 <= 5)%Z
  /\ batches_to_converge (F:=float) sample_data expected_results
       [float_of_dec 5 4; float_of_dec 5 4] (of_dec 5 1) 5 (of_int 1)
     = Some 2%nat.
Proof.
  assert (Hp : PrimFloat.ltb (of_int 0) (float_of_dec 5 4) = true)
    by reflexivity.
  assert (Hs : PrimFloat.ltb (float_of_dec 5 4) (of_dec 1 3) = true)
    by reflexivity.
  assert (Hn : (2 <= 5)%Z) by (intros H; discriminate H).
  split; [exact Hp|]. split; [exact Hs|]. split; [exact Hn|].
  exact (proj1 C7_or_converges_in_two_batches (float_of_dec 5 4)
           (float_of_dec 5 4) 5%Z Hp Hs Hp Hs Hn).
Defined.

(** C8, as stated, fails on the code.  The number of batches to
    convergence is not monotone in the learning rate: from the weights
    [[0.0009, 0.0009]], learning rate 0.0745 converges in 4 batches and
    the larger learning rate 0.0746 in 5, in exact arithmetic and on
    binary64 alike.  And a learning rate below 1 need not be strictly
    slower: learning rate 0.5 converges in 2 batches, as learning rate 1
    does. *)
Lemma C8_batches_not_monotone_in_rate :
  (of_dec (F:=Q) 745 4 < of_dec (F:=Q) 746 4)%Q
  /\ batches_to_converge (F:=Q) sample_data expected_results
       [of_dec 9 4; of_dec 9 4] (of_dec 5 1) 10 (of_dec 745 4) = Some 4%nat
  /\ batches_to_converge (F:=Q) sample_data expected_results
       [of_dec 9 4; of_dec 9 4] (of_dec 5 1) 10 (of_dec 746 4) = Some 5%nat
  /\ batches_to_converge (F:=float) sample_data expected_results
       [of_dec 9 4; of_dec 9 4] (of_dec 5 1) 10 (of_dec 745 4) = Some 4%nat
  /\ batches_to_converge (F:=float) sample_data expected_results
       [of_dec 9 4; of_dec 9 4] (of_dec 5 1) 10 (of_dec 746 4) = Some 5%nat
  /\ (of_dec (F:=Q) 5 1 < of_int (F:=Q) 1)%Q
  /\ batches_to_converge (F:=Q) sample_data expected_results
       [of_dec 9 4; of_dec 9 4] (of_dec 5 1) 10 (of_dec 5 1) = Some 2%nat
  /\ batches_to_converge (F:=Q) sample_data expected_results
       [of_dec 9 4; of_dec 9 4] (of_dec 5 1) 10 (of_int 1) = Some 2%nat
  /\ batches_to_converge (F:=float) sample_data expected_results
       [of_dec 9 4; of_dec 9 4] (of_dec 5 1) 10 (of_dec 5 1) = Some 2%nat
  /\ batches_to_converge (F:=float) sample_data expected_results
       [of_dec 9 4; of_dec 9 4] (of_dec 5 1) 10 (of_int 1) = Some 2%nat.
Proof. repeat split; vm_compute; reflexivity. Qed.

(** C8, amended: on the logical-or data with threshold 0.5, on binary64,
    from every initial weight vector with entries between 0 and 0.001:
    with learning rate 0.05 the first batch whose outputs equal the labels
    is the fifth, strictly later than the second, which it is with
    learning rate 1; and with no learning rate at all (infinities and NaN
    included) is it earlier than the second.  So it is in the notebook's
    recorded runs: the fifth batch with learning rate 0.05 and the second
    with learning rate 1. *)
Theorem C8_or_rate_20_is_slower :
  (forall w0 w1 : float,
      PrimFloat.ltb (of_int 0) w0 = true ->
      PrimFloat.ltb w0 (of_dec 1 3) = true ->
      PrimFloat.ltb (of_int 0) w1 = true ->
      PrimFloat.ltb w1 (of_dec 1 3) = true ->
      (forall numBatches : Z,
          (5 <= numBatches)%Z ->
          batches_to_converge (F:=float) sample_data expected_results
            [w0; w1] (of_dec 5 1) numBatches (of_dec 5 2) = Some 5%nat)
      /\ (forall numBatches : Z,
            (2 <= numBatches)%Z ->
            batches_to_converge (F:=float) sample_data expected_results
              [w0; w1] (of_dec 5 1) numBatches (of_int 1) = Some 2%nat)
      /\ (forall (learningRate : float) (numBatches : Z) (k : nat),
            batches_to_converge (F:=float) sample_data expected_results
              [w0; w1] (of_dec 5 1) numBatches learningRate = Some k ->
            (2 <= k)%nat))
  /\ batches_to_converge (F:=float) sample_data expected_results
       recorded_weights (of_dec 5 1) 10 (of_dec 5 2) = Some 5%nat
  /\ batches_to_converge (F:=float) sample_data expected_results
       recorded_weights (of_dec 5 1) 5 (of_int 1) = Some 2%nat.
Proof.
  split; [|split; [exact (proj2 (proj2 or_recorded_runs))
                  |exact (proj1 (proj2 or_recorded_runs))]].
  intros w0 w1 Hp0 Hs0 Hp1 Hs1.
  pose proof (float_small_weight w0 Hp0 Hs0) as B0.
  pose proof (float_small_weight w1 Hp1 Hs1) as B1.
  split; [|split].
  - intros n Hn. unfold batches_to_converge.
    rewrite train_perceptron_trace.
    destruct (Z.to_nat n) as [|[|[|[|[|m]]]]] eqn:En; try lia.
    destruct (float_or_rate_20 w0 w1 m B0 B1) as (rest & ->).
    reflexivity.
  - intros n Hn. unfold batches_to_converge.
    rewrite train_perceptron_trace.
    destruct (Z.to_nat n) as [|[|m]] eqn:En; [lia|lia|].
    destruct (float_or_rate_1 w0 w1 m B0 B1) as (rest & ->).
    reflexivity.
  - intros lr n k. unfold batches_to_converge.
    rewrite train_perceptron_trace.
    destruct (Z.to_nat n) as [|m]; [discriminate|].
    destruct (float_or_first_batch w0 w1 lr m B0 B1) as (rest & ->).
    cbn [first_converged].
    destruct (list_eq_dec Z.eq_dec [0; 0; 0; 0]%Z expected_results)
      as [Heq|_]; [discriminate Heq|].
    destruct (first_converged expected_results rest) as [k'|] eqn:Ek;
      [|discriminate].
    intros Hk. inversion Hk.
    apply first_converged_pos in Ek. lia.
Qed.

(** Both weights 0.0005, ten batches at learning rate 0.05. *)
Lemma C8_or_rate_20_is_slower_witness :
  PrimFloat.ltb (of_int 0) (float_of_dec 5 4) = true
  /\ PrimFloat.ltb (float_of_dec 5 4) (of_dec 1 3) = true
  /\ (5 <= 10)%Z
  /\ batches_to_converge (F:=float) sample_data expected_results
       [float_of_dec 5 4; float_of_dec 5 4] (of_dec 5 1) 10 (of_dec 5 2)
     = Some 5%nat.
Proof.
  assert (Hp : PrimFloat.ltb (of_int 0) (float_of_dec 5 4) = true)
    by reflexivity.
  assert (Hs : PrimFloat.ltb (float_of_dec 5 4) (of_dec 1 3) = true)
    by reflexivity.
  assert (Hn : (5 <= 10)%Z) by (intros H; discriminate H).
  split; [exact Hp|]. split; [exact Hs|]. split; [exact Hn|].
  exact (proj1 (proj1 C8_or_rate_20_is_slower (float_of_dec 5 4)
                  (float_of_dec 5 4) Hp Hs Hp Hs) 10%Z Hn).
Defined.


(** * Further properties *)

(** ** Resuming and edge cases of [train_perceptron] *)

Section TraceFacts.

Context {F : Type} {num : Num F}.

Variables (features : list (list F)) (labels : list Z) (thr lr : F).

(** What the loop prints and returns does not depend on what was printed
    before it. *)
Lemma batch_loop_out (n : nat) :
  forall w out,
    batch_loop features labels thr lr n w out
    = (out ++ fst (batch_loop features labels thr lr n w []),
       snd (batch_loop features labels thr lr n w [])).
Proof.
  induction n as [|n IH]; intros w out.
  - simpl. now rewrite app_nil_r.
  - cbn [batch_loop]. unfold bind. rewrite !batch_body_unfold.
    destruct (batch_outputs_of features thr w) as [outs|e];
      [|reflexivity].
    destruct (update_loop outs labels lr 0 features w) as [w'|e];
      [|reflexivity].
    rewrite (IH w' (out ++ _)), (IH w' ([] ++ _)). cbn [fst snd app].
    now rewrite <- app_assoc.
Qed.

Lemma batch_loop_app (n m : nat) :
  forall w out,
    batch_loop features labels thr lr (n + m) w out
    = match batch_loop features labels thr lr n w out with
      | (out', Ok w') => batch_loop features labels thr lr m w' out'
      | (out', Raise e) => (out', Raise e)
      end.
Proof.
  induction n as [|n IH]; intros w out.
  - reflexivity.
  - cbn [Nat.add batch_loop]. unfold bind.
    destruct (batch_body features labels thr lr w out) as [out' [w'|e]];
      [apply IH | reflexivity].
Qed.

(** One turn of the loop. *)
Lemma batch_loop_S (n : nat) (w : list F) (out : list (event F)) :
  batch_loop features labels thr lr (S n) w out
  = match batch_outputs_of features thr w with
    | Ok outs =>
        match update_loop outs labels lr 0 features w with
        | Ok w' =>
            batch_loop features labels thr lr n w'
              (out ++ [PreBatch w; PostBatch w' outs labels])
        | Raise e => (out ++ [PreBatch w], Raise e)
        end
    | Raise e => (out ++ [PreBatch w], Raise e)
    end.
Proof.
  cbn [batch_loop]. unfold bind. rewrite batch_body_unfold.
  destruct (batch_outputs_of features thr w) as [outs|e]; [|reflexivity].
  now destruct (update_loop outs labels lr 0 features w).
Qed.

(** After at least one batch, the last line printed shows the weights the
    loop ends with. *)
Lemma batch_loop_last (n : nat) :
  forall w out out1 w1 d,
    batch_loop features labels thr lr (S n) w out = (out1, Ok w1) ->
    exists outs, last out1 d = PostBatch w1 outs labels.
Proof.
  induction n as [|n IH]; intros w out out1 w1 d Hrun;
    rewrite batch_loop_S in Hrun;
    destruct (batch_outputs_of features thr w) as [outs|e];
    try discriminate;
    destruct (update_loop outs labels lr 0 features w) as [w'|e];
    try discriminate.
  - inversion Hrun; subst. exists outs.
    change [PreBatch w; PostBatch w1 outs labels]
      with ([PreBatch w] ++ [PostBatch w1 outs labels]).
    rewrite app_assoc. apply last_last.
  - exact (IH w' _ out1 w1 d Hrun).
Qed.

Lemma train_perceptron_result (w : list F) (n : Z) :
  snd (train_perceptron features labels w thr n lr [])
  = match snd (batch_loop features labels thr lr (Z.to_nat n) w []) with
    | Ok _ => Ok PyNone
    | Raise e => Raise e
    end.
Proof.
  unfold train_perceptron, bind.
  now destruct (batch_loop features labels thr lr (Z.to_nat n) w [])
    as [out [v|e]].
Qed.

(** The loop on an empty list of examples. *)
Lemma batch_loop_no_examples (ls : list Z) (n : nat) :
  forall w out,
    batch_loop [] ls thr lr n w out
    = (out ++ concat (repeat [PreBatch w; PostBatch w [] ls] n), Ok w).
Proof.
  induction n as [|n IH]; intros w out.
  - simpl. now rewrite app_nil_r.
  - cbn [batch_loop repeat concat]. unfold bind.
    rewrite batch_body_unfold. cbn [batch_outputs_of map_result update_loop].
    rewrite IH. now rewrite <- app_assoc.
Qed.

End TraceFacts.

(** X1: the batches of a run compose.  If the first [n] turns of the loop
    from the weights [w0] end without an exception with the variable
    [weights] holding [w1], then a call with [n + m] batches from [w0]
    prints what the call with [n] batches prints followed by what a call
    with [m] batches from [w1] prints, and ends as that call ends. *)
Theorem train_perceptron_resumes {F : Type} {num : Num F}
    (examples : list (list F)) (labels : list Z) (w0 w1 : list F)
    (threshold : F) (n m : Z) (learningRate : F) :
  (0 <= n)%Z -> (0 <= m)%Z ->
  snd (batch_loop examples labels threshold learningRate (Z.to_nat n) w0 [])
  = Ok w1 ->
  fst (train_perceptron examples labels w0 threshold (n + m) learningRate [])
  = fst (train_perceptron examples labels w0 threshold n learningRate [])
    ++ fst (train_perceptron examples labels w1 threshold m learningRate [])
  /\ snd (train_perceptron examples labels w0 threshold (n + m) learningRate
            [])
     = snd (train_perceptron examples labels w1 threshold m learningRate []).
Proof.
  intros Hn Hm Hrun.
  rewrite !train_perceptron_trace. rewrite !train_perceptron_result.
  replace (Z.to_nat (n + m)) with (Z.to_nat n + Z.to_nat m)%nat by lia.
  rewrite batch_loop_app.
  destruct (batch_loop examples labels threshold learningRate (Z.to_nat n)
              w0 []) as [out1 [w1'|e]]; cbn [snd] in Hrun; [|discriminate].
  inversion Hrun; subst.
  rewrite batch_loop_out. cbn [fst snd]. split; reflexivity.
Qed.

(** The first two batches of the recorded run, then three more. *)
Lemma train_perceptron_resumes_witness :
  (0 <= 2)%Z /\ (0 <= 3)%Z
  /\ snd (batch_loop (F:=float) sample_data expected_results (of_dec 5 1)
            (of_int 1) (Z.to_nat 2) recorded_weights [])
     = Ok [nadd (nadd (of_dec 74888 8) (of_int 1)) (of_int 1);
           nadd (nadd (of_dec 65487 8) (of_int 1)) (of_int 1)]
  /\ fst (train_perceptron (F:=float) sample_data expected_results
            recorded_weights (of_dec 5 1) (2 + 3) (of_int 1) [])
     = fst (train_perceptron (F:=float) sample_data expected_results
              recorded_weights (of_dec 5 1) 2 (of_int 1) [])
       ++ fst (train_perceptron (F:=float) sample_data expected_results
                 [nadd (nadd (of_dec 74888 8) (of_int 1)) (of_int 1);
                  nadd (nadd (of_dec 65487 8) (of_int 1)) (of_int 1)]
                 (of_dec 5 1) 3 (of_int 1) []).
Proof.
  assert (H1 : (0 <= 2)%Z) by (intros H; discriminate H).
  assert (H2 : (0 <= 3)%Z) by (intros H; discriminate H).
  assert (H3 : snd (batch_loop (F:=float) sample_data expected_results
                      (of_dec 5 1) (of_int 1) (Z.to_nat 2) recorded_weights
                      [])
               = Ok [nadd (nadd (of_dec 74888 8) (of_int 1)) (of_int 1);
                     nadd (nadd (of_dec 65487 8) (of_int 1)) (of_int 1)])
    by (vm_compute; reflexivity).
  split; [exact H1|]. split; [exact H2|]. split; [exact H3|].
  exact (proj1 (train_perceptron_resumes sample_data expected_results
                  recorded_weights _ (of_dec 5 1) 2 3 (of_int 1) H1 H2 H3)).
Defined.

(** With a batch count of zero or below, [train_perceptron] prints
    nothing, raises nothing and returns [None], whatever the other
    arguments are, mismatched lengths included. *)
Theorem train_perceptron_no_batches {F : Type} {num : Num F}
    (examples : list (list F)) (labels : list Z) (w : list F)
    (threshold : F) (n : Z) (learningRate : F) :
  (n <= 0)%Z ->
  train_perceptron examples labels w threshold n learningRate []
  = ([], Ok PyNone).
Proof.
  intros Hn. unfold train_perceptron.
  replace (Z.to_nat n) with 0%nat by lia. reflexivity.
Qed.

(** Three inputs against two weights and no label, minus one batch. *)
Lemma train_perceptron_no_batches_witness :
  (-1 <= 0)%Z
  /\ train_perceptron (F:=float) [[of_int 1; of_int 2; of_int 3]] []
       [of_int 1; of_int 2] (of_dec 5 1) (-1) (of_int 1) []
     = ([], Ok PyNone).
Proof.
  assert (H1 : (-1 <= 0)%Z) by (intros H; discriminate H).
  split; [exact H1|].
  exact (train_perceptron_no_batches [[of_int 1; of_int 2; of_int 3]] []
           [of_int 1; of_int 2] (of_dec 5 1) (-1) (of_int 1) H1).
Defined.

(** X2: with no example, every batch prints the weights unchanged and an
    empty output vector, and nothing is raised, whatever the weights and
    the labels are. *)
Theorem train_perceptron_no_examples {F : Type} {num : Num F}
    (labels : list Z) (w : list F) (threshold : F) (n : Z)
    (learningRate : F) :
  train_perceptron [] labels w threshold n learningRate []
  = (concat (repeat [PreBatch w; PostBatch w [] labels] (Z.to_nat n)),
     Ok PyNone).
Proof.
  unfold train_perceptron, bind. now rewrite batch_loop_no_examples.
Qed.

(** ** How a run fails, and what every line shows *)

Section FailureFacts.

Context {F : Type} {num : Num F}.

Variables (labels : list Z) (thr lr : F).

Lemma perceptron_binary (example w : list F) (o : Z) :
  perceptron example w thr = Ok o ->
  (o = 0%Z \/ o = 1%Z) /\ length example = length w.
Proof.
  unfold perceptron, activation_level, np_dot.
  destruct (Nat.eqb_spec (length example) (length w)); cbn [rbind];
    [|discriminate].
  destruct (nge _ thr); intros Ho; inversion Ho; auto.
Qed.

Lemma batch_outputs_binary (w : list F) (feats : list (list F)) :
  forall outs,
    batch_outputs_of feats thr w = Ok outs ->
    Forall (fun o => o = 0%Z \/ o = 1%Z) outs.
Proof.
  unfold batch_outputs_of.
  induction feats as [|example rest IH]; simpl; intros outs Ho.
  - inversion Ho. constructor.
  - destruct (perceptron example w thr) as [o|e] eqn:Hp; [|discriminate].
    cbn [rbind] in Ho.
    destruct (map_result (fun ex => perceptron ex w thr) rest) as [os|e];
      [|discriminate].
    inversion Ho. constructor; [|now apply IH].
    exact (proj1 (perceptron_binary _ _ _ Hp)).
Qed.

(** The first pass over the examples stops at the first one whose length
    is not that of the weights. *)
Lemma batch_outputs_mismatch (w : list F) (feats : list (list F)) :
  Exists (fun example => length example <> length w) feats ->
  batch_outputs_of feats thr w = Raise ValueError.
Proof.
  unfold batch_outputs_of.
  induction feats as [|example rest IH]; intros Hex.
  - inversion Hex.
  - cbn [map_result].
    destruct (Nat.eq_dec (length example) (length w)) as [Heq|Hne].
    + destruct (perceptron_total thr example w Heq) as (o & ->).
      cbn [rbind]. rewrite IH; [reflexivity|].
      inversion Hex; subst; [contradiction | assumption].
    + unfold perceptron, activation_level, np_dot.
      destruct (Nat.eqb_spec (length example) (length w)); [contradiction|].
      reflexivity.
Qed.

(** The second loop raises when it reaches the end of the labels. *)
Lemma update_loop_short_labels (outs : list Z) (feats : list (list F)) :
  forall idx w,
    Forall (fun example => length example = length w) feats ->
    (idx <= length labels)%nat ->
    (idx + length feats <= length outs)%nat ->
    (length labels < idx + length feats)%nat ->
    update_loop outs labels lr idx feats w = Raise IndexError.
Proof.
  induction feats as [|datum rest IH]; intros idx w Hwf Hidx Ho Hl.
  - simpl in Hl. lia.
  - cbn [update_loop]. simpl in Ho, Hl.
    destruct (subscript_lt outs idx) as (o & -> & _); [lia|].
    cbn [rbind].
    destruct (Nat.eq_dec idx (length labels)) as [Heq|Hne].
    + rewrite subscript_ge by lia. reflexivity.
    + destruct (subscript_lt labels idx) as (l & -> & _); [lia|].
      cbn [rbind]. inversion Hwf as [|? ? Hd Hrest]; subst.
      destruct (adjust_weights_same_length o l lr datum w Hd)
        as (w' & -> & _ & Hlen).
      cbn [rbind]. apply IH; try lia. now rewrite Hlen.
Qed.

(** The second loop keeps the length of the weights. *)
Lemma update_loop_length (outs : list Z) (feats : list (list F)) :
  forall idx w w',
    Forall (fun example => length example = length w) feats ->
    update_loop outs labels lr idx feats w = Ok w' ->
    length w' = length w.
Proof.
  induction feats as [|datum rest IH]; intros idx w w' Hwf Hrun.
  - simpl in Hrun. now inversion Hrun.
  - cbn [update_loop] in Hrun.
    destruct (subscript outs idx) as [o|e]; [|discriminate].
    destruct (subscript labels idx) as [l|e]; [|discriminate].
    cbn [rbind] in Hrun. inversion Hwf as [|? ? Hd Hrest]; subst.
    destruct (adjust_weights_same_length o l lr datum w Hd)
      as (w1 & Hw1 & _ & Hlen).
    rewrite Hw1 in Hrun. cbn [rbind] in Hrun.
    rewrite <- Hlen. apply (IH (S idx) w1 w'); [|exact Hrun].
    now rewrite Hlen.
Qed.

Lemma combine_firstn_length {A B : Type} (l1 : list A) :
  forall l2 : list B, combine l1 (firstn (length l1) l2) = combine l1 l2.
Proof.
  induction l1 as [|a l1 IH]; intros [|b l2]; simpl; try reflexivity.
  now rewrite IH.
Qed.

End FailureFacts.

Section LineFacts.

Context {F : Type} {num : Num F}.

Variables (features : list (list F)) (thr lr : F).

Lemma update_loop_extra_labels (labels outs : list Z) (w : list F) :
  length outs = length features ->
  (length features <= length labels)%nat ->
  update_loop outs labels lr 0 features w
  = update_loop outs (firstn (length features) labels) lr 0 features w.
Proof.
  intros Ho Hl.
  rewrite (update_loop_eq labels lr outs features 0 w) by (simpl; lia).
  rewrite (update_loop_eq (firstn (length features) labels) lr outs
             features 0 w)
    by (rewrite ?length_firstn; simpl; lia).
  unfold batch_chain. cbn [skipn].
  rewrite <- Ho. now rewrite combine_firstn_length.
Qed.

(** Labels beyond the last example are never read. *)
Lemma batch_loop_extra_labels (labels : list Z) (n : nat) :
  (length features <= length labels)%nat ->
  forall w out,
    batch_loop features labels thr lr n w (map (relabel labels) out)
    = (map (relabel labels)
         (fst (batch_loop features (firstn (length features) labels) thr lr
                 n w out)),
       snd (batch_loop features (firstn (length features) labels) thr lr
              n w out)).
Proof.
  intros Hl. induction n as [|n IH]; intros w out.
  - reflexivity.
  - rewrite !batch_loop_S.
    destruct (batch_outputs_of features thr w) as [outs|e] eqn:Ho;
      [|cbn [fst snd]; now rewrite List.map_app].
    apply map_result_length in Ho.
    rewrite (update_loop_extra_labels labels outs w Ho Hl).
    destruct (update_loop outs (firstn (length features) labels) lr 0
                features w) as [w'|e];
      [|cbn [fst snd]; now rewrite List.map_app].
    rewrite <- IH. now rewrite List.map_app.
Qed.

(** Every weight vector printed has the length of the initial one. *)
Lemma batch_loop_weight_lengths (labels : list Z) (n : nat) :
  forall w out e,
    Forall (fun example => length example = length w) features ->
    In e (fst (batch_loop features labels thr lr n w out)) ->
    In e out
    \/ match e with
       | PreBatch w1 => length w1 = length w
       | PostBatch w1 _ _ => length w1 = length w
       end.
Proof.
  induction n as [|n IH]; intros w out e Hwf Hin.
  - left. exact Hin.
  - rewrite batch_loop_S in Hin.
    destruct (batch_outputs_of features thr w) as [outs|ex].
    + destruct (update_loop outs labels lr 0 features w) as [w'|ex] eqn:Hu.
      * pose proof (update_loop_length labels lr outs features 0 w w' Hwf Hu)
          as Hlen.
        apply IH in Hin; [|now rewrite Hlen].
        destruct Hin as [Hin|Hin].
        -- apply in_app_or in Hin.
           destruct Hin as [Hin|[<-|[<-|[]]]]; auto.
        -- right. destruct e; congruence.
      * simpl in Hin. apply in_app_or in Hin.
        destruct Hin as [Hin|[<-|[]]]; auto.
    + simpl in Hin. apply in_app_or in Hin.
      destruct Hin as [Hin|[<-|[]]]; auto.
Qed.

End LineFacts.

(** X3: when some example has not the length of the weight vector and at
    least one batch is asked for, [train_perceptron] prints the first line
    of the first batch and raises [ValueError]: the mismatch is found in
    the first pass over the examples, before any weight is adjusted,
    wherever in the list the example is. *)
Theorem train_perceptron_dimension_error {F : Type} {num : Num F}
    (examples : list (list F)) (labels : list Z) (w : list F)
    (threshold : F) (n : Z) (learningRate : F) :
  Exists (fun example => length example <> length w) examples ->
  (1 <= n)%Z ->
  train_perceptron examples labels w threshold n learningRate []
  = ([PreBatch w], Raise ValueError).
Proof.
  intros Hex Hn. unfold train_perceptron, bind.
  destruct (Z.to_nat n) as [|k] eqn:Ek; [lia|].
  rewrite batch_loop_S.
  now rewrite (batch_outputs_mismatch threshold w examples Hex).
Qed.

(** Two good examples and then one of three entries, against two
    weights. *)
Lemma train_perceptron_dimension_error_witness :
  Exists (fun example => length example <> length (recorded_weights))
    [[of_int (F:=float) 0; of_int 1]; [of_int 1; of_int 0];
     [of_int 1; of_int 1; of_int 1]]
  /\ (1 <= 5)%Z
  /\ train_perceptron (F:=float)
       [[of_int 0; of_int 1]; [of_int 1; of_int 0];
        [of_int 1; of_int 1; of_int 1]]
       [1; 1; 1]%Z recorded_weights (of_dec 5 1) 5 (of_int 1) []
     = ([PreBatch recorded_weights], Raise ValueError).
Proof.
  assert (H1 : Exists
                 (fun example => length example <> length (recorded_weights))
                 [[of_int (F:=float) 0; of_int 1]; [of_int 1; of_int 0];
                  [of_int 1; of_int 1; of_int 1]]).
  { apply Exists_cons_tl. apply Exists_cons_tl. apply Exists_cons_hd.
    simpl. discriminate. }
  assert (H2 : (1 <= 5)%Z) by (intros H; discriminate H).
  split; [exact H1|]. split; [exact H2|].
  exact (train_perceptron_dimension_error _ [1; 1; 1]%Z recorded_weights
           (of_dec 5 1) 5 (of_int 1) H1 H2).
Defined.

(** X4: when the examples have the length of the weights but there are
    fewer labels than examples, and at least one batch is asked for,
    [train_perceptron] prints the first line of the first batch and raises
    [IndexError]; the adjustments made before the labels ran out are
    lost. *)
Theorem train_perceptron_short_labels {F : Type} {num : Num F}
    (examples : list (list F)) (labels : list Z) (w : list F)
    (threshold : F) (n : Z) (learningRate : F) :
  Forall (fun example => length example = length w) examples ->
  (length labels < length examples)%nat ->
  (1 <= n)%Z ->
  train_perceptron examples labels w threshold n learningRate []
  = ([PreBatch w], Raise IndexError).
Proof.
  intros Hwf Hl Hn. unfold train_perceptron, bind.
  destruct (Z.to_nat n) as [|k] eqn:Ek; [lia|].
  rewrite batch_loop_S.
  destruct (batch_outputs_total threshold w examples Hwf) as (outs & Ho).
  rewrite Ho. apply map_result_length in Ho.
  rewrite (update_loop_short_labels labels learningRate outs examples 0 w)
    by (simpl; lia || assumption).
  reflexivity.
Qed.

(** The logical-or data with its last label missing. *)
Lemma train_perceptron_short_labels_witness :
  Forall (fun example => length example = length recorded_weights)
    (sample_data (F:=float))
  /\ (length [0; 1; 1]%Z < length (sample_data (F:=float)))%nat
  /\ (1 <= 5)%Z
  /\ train_perceptron (F:=float) sample_data [0; 1; 1]%Z recorded_weights
       (of_dec 5 1) 5 (of_int 1) []
     = ([PreBatch recorded_weights], Raise IndexError).
Proof.
  assert (H1 : Forall
                 (fun example => length example = length recorded_weights)
                 (sample_data (F:=float))) by (repeat constructor).
  assert (H2 : (length [0; 1; 1]%Z < length (sample_data (F:=float)))%nat)
    by (simpl; apply le_n).
  assert (H3 : (1 <= 5)%Z) by (intros H; discriminate H).
  split; [exact H1|]. split; [exact H2|]. split; [exact H3|].
  exact (train_perceptron_short_labels sample_data [0; 1; 1]%Z
           recorded_weights (of_dec 5 1) 5 (of_int 1) H1 H2 H3).
Defined.

(** X5: labels beyond the last example are never read: with more labels
    than examples, a run prints the weights and outputs, and ends, as the
    run on the labels cut to the number of examples does; only the label
    vector shown on the lines differs. *)
Theorem train_perceptron_extra_labels {F : Type} {num : Num F}
    (examples : list (list F)) (labels : list Z) (w : list F)
    (threshold : F) (n : Z) (learningRate : F) :
  (length examples <= length labels)%nat ->
  train_perceptron examples labels w threshold n learningRate []
  = (map (relabel labels)
       (fst (train_perceptron examples (firstn (length examples) labels) w
               threshold n learningRate [])),
     snd (train_perceptron examples (firstn (length examples) labels) w
            threshold n learningRate [])).
Proof.
  intros Hl.
  rewrite (surjective_pairing
             (train_perceptron examples labels w threshold n learningRate [])).
  rewrite !train_perceptron_trace, !train_perceptron_result.
  pose proof (batch_loop_extra_labels examples threshold learningRate labels
                (Z.to_nat n) Hl w []) as Hrun.
  cbn [map] in Hrun. rewrite Hrun. reflexivity.
Qed.

(** The logical-or data with two labels too many. *)
Lemma train_perceptron_extra_labels_witness :
  (length (sample_data (F:=float)) <= length [0; 1; 1; 1; 0; 0]%Z)%nat
  /\ printed_outputs
       (fst (train_perceptron (F:=float) sample_data [0; 1; 1; 1; 0; 0]%Z
               recorded_weights (of_dec 5 1) 2 (of_int 1) []))
     = [[0; 0; 0; 0]; [0; 1; 1; 1]]%Z.
Proof.
  assert (H1 : (length (sample_data (F:=float))
                <= length [0; 1; 1; 1; 0; 0]%Z)%nat)
    by (simpl; repeat constructor).
  split; [exact H1|].
  rewrite (train_perceptron_extra_labels sample_data [0; 1; 1; 1; 0; 0]%Z
             recorded_weights (of_dec 5 1) 2 (of_int 1) H1).
  vm_compute. reflexivity.
Defined.

(** X6: every line printed after a batch, in any run on any input, shows
    the label vector as it was passed and an output vector with one entry
    per example, each 0 or 1. *)
Theorem train_perceptron_output_lines {F : Type} {num : Num F}
    (examples : list (list F)) (labels : list Z) (w0 : list F)
    (threshold : F) (n : Z) (learningRate : F)
    (w : list F) (outs l : list Z) :
  In (PostBatch w outs l)
     (fst (train_perceptron examples labels w0 threshold n learningRate [])) ->
  l = labels
  /\ length outs = length examples
  /\ Forall (fun o => o = 0%Z \/ o = 1%Z) outs.
Proof.
  intros Hin. rewrite train_perceptron_trace in Hin.
  apply batch_loop_events in Hin.
  destruct Hin as [[]|[(w1 & Hw1)|(w1 & outs' & w' & He & Ho)]];
    [discriminate|].
  inversion He; subst. split; [reflexivity|]. split.
  - exact (map_result_length _ _ _ Ho).
  - exact (batch_outputs_binary threshold w1 examples outs' Ho).
Qed.

(** The second line of the recorded run. *)
Lemma train_perceptron_output_lines_witness :
  In (PostBatch
        [nadd (nadd (of_dec 74888 8) (of_int 1)) (of_int 1);
         nadd (nadd (of_dec 65487 8) (of_int 1)) (of_int 1)]
        [0; 0; 0; 0]%Z expected_results)
     (fst (train_perceptron (F:=float) sample_data expected_results
             recorded_weights (of_dec 5 1) 5 (of_int 1) []))
  /\ length [0; 0; 0; 0]%Z = length (sample_data (F:=float)).
Proof.
  assert (H1 : In (PostBatch
                     [nadd (nadd (of_dec 74888 8) (of_int 1)) (of_int 1);
                      nadd (nadd (of_dec 65487 8) (of_int 1)) (of_int 1)]
                     [0; 0; 0; 0]%Z expected_results)
                  (fst (train_perceptron (F:=float) sample_data
                          expected_results recorded_weights (of_dec 5 1) 5
                          (of_int 1) [])))
    by (vm_compute; right; left; reflexivity).
  split; [exact H1|].
  exact (proj1 (proj2 (train_perceptron_output_lines sample_data
                         expected_results recorded_weights (of_dec 5 1) 5
                         (of_int 1) _ _ _ H1))).
Defined.

(** X7: when every example has the length of the initial weight vector,
    every weight vector printed, before or after a batch, has that length
    too, whatever the labels are and however the run ends. *)
Theorem train_perceptron_weight_lengths {F : Type} {num : Num F}
    (examples : list (list F)) (labels : list Z) (w0 : list F)
    (threshold : F) (n : Z) (learningRate : F) (e : event F) :
  Forall (fun example => length example = length w0) examples ->
  In e (fst (train_perceptron examples labels w0 threshold n learningRate
               [])) ->
  match e with
  | PreBatch w => length w = length w0
  | PostBatch w _ _ => length w = length w0
  end.
Proof.
  intros Hwf Hin. rewrite train_perceptron_trace in Hin.
  apply batch_loop_weight_lengths in Hin; [|exact Hwf].
  destruct Hin as [[]|Hin]. exact Hin.
Qed.

(** The line after the first batch of the recorded run, both weights
    raised by 2. *)
Lemma train_perceptron_weight_lengths_witness :
  Forall (fun example => length example = length recorded_weights)
    (sample_data (F:=float))
  /\ In (PostBatch
          [nadd (nadd (of_dec 74888 8) (of_int 1)) (of_int 1);
           nadd (nadd (of_dec 65487 8) (of_int 1)) (of_int 1)]
          [0; 0; 0; 0]%Z expected_results)
       (fst (train_perceptron (F:=float) sample_data expected_results
               recorded_weights (of_dec 5 1) 5 (of_int 1) []))
  /\ length [nadd (F:=float) (nadd (of_dec 74888 8) (of_int 1)) (of_int 1);
             nadd (nadd (of_dec 65487 8) (of_int 1)) (of_int 1)]
     = length recorded_weights.
Proof.
  assert (H1 : Forall
                 (fun example => length example = length recorded_weights)
                 (sample_data (F:=float))) by (repeat constructor).
  assert (H2 : In (PostBatch
                     [nadd (nadd (of_dec 74888 8) (of_int 1)) (of_int 1);
                      nadd (nadd (of_dec 65487 8) (of_int 1)) (of_int 1)]
                     [0; 0; 0; 0]%Z expected_results)
                 (fst (train_perceptron (F:=float) sample_data
                         expected_results recorded_weights (of_dec 5 1) 5
                         (of_int 1) [])))
    by (vm_compute; right; left; reflexivity).
  split; [exact H1|]. split; [exact H2|].
  exact (train_perceptron_weight_lengths sample_data expected_results
           recorded_weights (of_dec 5 1) 5 (of_int 1) _ H1 H2).
Defined.

(** ** The cells around the functions *)

Section CellFacts.

Context {F : Type} {num : Num F}.

Variables (labels : list Z) (w : list F).

(** The second loop of the cell keeps only its last adjustment. *)
Lemma cell_update_loop_last (outs : list Z) (datum : list F)
    (init : list (list F)) :
  forall idx nw,
    Forall (fun example => length example = length w) (init ++ [datum]) ->
    (idx + length init < length outs)%nat ->
    (idx + length init < length labels)%nat ->
    exists o l,
      nth_error outs (idx + length init) = Some o
      /\ nth_error labels (idx + length init) = Some l
      /\ cell_update_loop outs labels w idx (init ++ [datum]) nw
         = adjust_weights o l datum w (of_int 1).
Proof.
  induction init as [|x init IH]; intros idx nw Hwf Ho Hl;
    simpl in Ho, Hl.
  - rewrite Nat.add_0_r in *.
    destruct (subscript_lt outs idx Ho) as (o & Hso & Hno).
    destruct (subscript_lt labels idx Hl) as (l & Hsl & Hnl).
    exists o, l. split; [exact Hno|]. split; [exact Hnl|].
    cbn [app cell_update_loop]. rewrite Hso, Hsl. cbn [rbind].
    now destruct (adjust_weights o l datum w (of_int 1)).
  - inversion Hwf as [|? ? Hx Hrest]; subst.
    destruct (IH (S idx) (map (adjusted 0 0 (of_int 1)) (combine x w)) Hrest)
      as (o & l & Hno & Hnl & _); try lia.
    replace (S idx + length init)%nat with (idx + S (length init))%nat
      in Hno, Hnl by lia.
    exists o, l. split; [exact Hno|]. split; [exact Hnl|].
    cbn [app cell_update_loop].
    destruct (subscript_lt outs idx) as (o0 & -> & _); [lia|].
    destruct (subscript_lt labels idx) as (l0 & -> & _); [lia|].
    cbn [rbind].
    destruct (adjust_weights_same_length o0 l0 (of_int 1) x w Hx)
      as (nw' & -> & _ & _).
    cbn [rbind].
    destruct (IH (S idx) nw' Hrest) as (o' & l' & Hno' & Hnl' & Hrun);
      try lia.
    replace (S idx + length init)%nat with (idx + S (length init))%nat
      in Hno', Hnl' by lia.
    rewrite Hrun. congruence.
Qed.

End CellFacts.

(** X8: the cell "one iteration, or batch" does not chain.  On examples
    of the weights' length with a label each, its value is the adjustment
    of the original weights for the last example alone, from that
    example's output and label; the adjustments for the examples before
    it are discarded.  With no example its value is what [new_weights]
    held before. *)
Theorem one_batch_cell_keeps_last_only {F : Type} {num : Num F}
    (init : list (list F)) (datum : list F) (labels : list Z)
    (w : list F) (threshold : F) (new_weights : list F) :
  Forall (fun example => length example = length w) (init ++ [datum]) ->
  (length (init ++ [datum]) <= length labels)%nat ->
  (exists outs o l,
      batch_outputs_of (init ++ [datum]) threshold w = Ok outs
      /\ nth_error outs (length init) = Some o
      /\ nth_error labels (length init) = Some l
      /\ one_batch_cell (init ++ [datum]) labels w threshold new_weights
         = adjust_weights o l datum w (of_int 1))
  /\ one_batch_cell [] labels w threshold new_weights = Ok new_weights.
Proof.
  intros Hwf Hl. split; [|reflexivity].
  destruct (batch_outputs_total threshold w (init ++ [datum]) Hwf)
    as (outs & Ho).
  pose proof (map_result_length _ _ _ Ho) as Hlen.
  rewrite length_app in Hlen, Hl. simpl in Hlen, Hl.
  destruct (cell_update_loop_last labels w outs datum init 0 new_weights Hwf)
    as (o & l & Hno & Hnl & Hrun); try (simpl; lia).
  exists outs, o, l. split; [exact Ho|]. split; [exact Hno|].
  split; [exact Hnl|].
  unfold one_batch_cell. rewrite forward_loop_eq, Ho. cbn [rbind app].
  exact Hrun.
Qed.

(** The cell on the logical-or data from the recorded weights: one is
    added to both weights, where a batch of [train_perceptron] adds two. *)
Lemma one_batch_cell_keeps_last_only_witness :
  Forall (fun example => length example = length recorded_weights)
    ([[of_int (F:=float) 0; of_int 0]; [of_int 0; of_int 1];
      [of_int 1; of_int 0]] ++ [[of_int 1; of_int 1]])
  /\ (length ([[of_int (F:=float) 0; of_int 0]; [of_int 0; of_int 1];
               [of_int 1; of_int 0]] ++ [[of_int 1; of_int 1]])
      <= length expected_results)%nat
  /\ one_batch_cell (F:=float) sample_data expected_results recorded_weights
       (of_dec 5 1) []
     = Ok [nadd (of_dec 74888 8) (of_int 1);
           nadd (of_dec 65487 8) (of_int 1)].
Proof.
  assert (H1 : Forall
                 (fun example => length example = length recorded_weights)
                 ([[of_int (F:=float) 0; of_int 0]; [of_int 0; of_int 1];
                   [of_int 1; of_int 0]] ++ [[of_int 1; of_int 1]]))
    by (repeat constructor).
  assert (H2 : (length ([[of_int (F:=float) 0; of_int 0];
                         [of_int 0; of_int 1]; [of_int 1; of_int 0]]
                        ++ [[of_int 1; of_int 1]])
                <= length expected_results)%nat)
    by (simpl; repeat constructor).
  split; [exact H1|]. split; [exact H2|].
  destruct (proj1 (one_batch_cell_keeps_last_only _ _ expected_results
                     recorded_weights (of_dec 5 1) [] H1 H2))
    as (outs & o & l & Ho & Hno & Hnl & Hrun).
  change ([[of_int 0; of_int 0]; [of_int 0; of_int 1]; [of_int 1; of_int 0]]
          ++ [[of_int 1; of_int 1]]) with (sample_data (F:=float)) in *.
  rewrite Hrun.
  assert (Houts : batch_outputs_of (F:=float) sample_data (of_dec 5 1)
                    recorded_weights = Ok [0; 0; 0; 0]%Z)
    by (vm_compute; reflexivity).
  rewrite Houts in Ho. inversion Ho; subst outs.
  simpl in Hno, Hnl. inversion Hno; inversion Hnl; subst.
  vm_compute. reflexivity.
Defined.
(** ** Binary64: the example of zeros, and learning rates that do not learn *)

Section FloatZeros.

Open Scope float_scope.

Lemma b64_round_value (x : float) : b64_round (b64_value x) = b64_value x.
Proof. apply b64_round_valid. apply Prim2SF_valid. Qed.

Lemma b64_value_0_finite (x : float) :
  b64_nan x = false -> b64_value x = 0%Z -> b64_finite x = true.
Proof.
  unfold b64_nan, b64_value, b64_finite.
  pose proof b64_inf_pos as Hi.
  destruct (Prim2SF x) as [s|s| |s m e]; cbn; intros N V;
    try reflexivity; try discriminate.
  destruct s; cbn [cond_Zopp] in V; lia.
Qed.

Lemma b64_leb_same_value (t a b : float) :
  b64_nan a = false -> b64_nan b = false -> b64_value a = b64_value b ->
  PrimFloat.leb t a = PrimFloat.leb t b.
Proof.
  intros Na Nb V.
  destruct (PrimFloat.leb t a) eqn:Ea, (PrimFloat.leb t b) eqn:Eb;
    try reflexivity.
  - apply b64_leb_iff in Ea. destruct Ea as (Nt & _ & L).
    assert (T : PrimFloat.leb t b = true)
      by (apply b64_leb_iff; repeat split; try assumption; lia).
    congruence.
  - apply b64_leb_iff in Eb. destruct Eb as (Nt & _ & L).
    assert (T : PrimFloat.leb t a = true)
      by (apply b64_leb_iff; repeat split; try assumption; lia).
    congruence.
Qed.

(** Adding the products of zeros by finite weights to a zero leaves a
    zero. *)
Lemma float_dot_zeros (weights : list float) :
  Forall (fun w => b64_finite w = true) weights ->
  forall acc,
    b64_finite acc = true -> b64_value acc = 0%Z ->
    b64_finite (dot_from (F:=float) acc (map (fun _ => of_int 0) weights)
                  weights) = true
    /\ b64_value (dot_from (F:=float) acc (map (fun _ => of_int 0) weights)
                    weights) = 0%Z.
Proof.
  induction 1 as [|w ws Hw _ IH]; intros acc Fa Va; cbn [map dot_from].
  - split; assumption.
  - cbn [nadd nmul of_int float_Num]. rewrite float_of_int_0.
    destruct (b64_mul_0 w Hw) as [Fm Vm].
    assert (N : b64_nan (acc + 0 * w) = false)
      by (apply b64_add_not_nan; auto using b64_finite_not_nan).
    destruct (b64_add_value _ _ N) as (_ & _ & V).
    rewrite Va, Vm in V. cbn [Z.add] in V. rewrite b64_round_0 in V.
    apply IH; [apply b64_value_0_finite; assumption|exact V].
Qed.

End FloatZeros.

(** X13: the bias is never adjusted, so finite weights have no say on an
    example of zeros.  On binary64, on the example of as many zeros as
    there are weights, [perceptron] returns 1 exactly when the threshold is
    at most 0.2, whatever the finite weights are: no training that keeps
    the weights finite changes this output. *)
Theorem perceptron_zero_example (weights : list float) (threshold : float) :
  Forall (fun w => b64_finite w = true) weights ->
  perceptron (F:=float) (map (fun _ => of_int 0) weights) weights threshold
  = Ok (if PrimFloat.leb threshold (of_dec 2 1) then 1%Z else 0%Z).
Proof.
  intros Hf. unfold perceptron, activation_level, np_dot.
  rewrite length_map, Nat.eqb_refl. cbn [rbind].
  assert (F0 : b64_finite (of_int (F:=float) 0) = true) by reflexivity.
  assert (V0 : b64_value (of_int (F:=float) 0) = 0%Z) by reflexivity.
  destruct (float_dot_zeros weights Hf (of_int 0) F0 V0) as [Fd Vd].
  rewrite float_bias_times_one. unfold bias_weight.
  set (d := dot_from (of_int 0) (map (fun _ => of_int 0) weights) weights)
    in *.
  cbn [nadd nge of_dec float_Num].
  assert (Fb : b64_finite (float_of_dec 2 1) = true) by reflexivity.
  assert (N : b64_nan (PrimFloat.add d (float_of_dec 2 1)) = false)
    by (apply b64_add_not_nan; auto using b64_finite_not_nan).
  destruct (b64_add_value _ _ N) as (_ & Nb & V).
  rewrite Vd in V. cbn [Z.add] in V.
  rewrite (b64_leb_same_value threshold _ (float_of_dec 2 1) N Nb).
  - destruct (PrimFloat.leb threshold (float_of_dec 2 1)); reflexivity.
  - rewrite V. destruct (b64_value (float_of_dec 2 1)) eqn:E;
      try reflexivity; rewrite <- E; apply b64_round_value.
Qed.

(** The row [[0, 0]] against the weights [[7, -3]]. *)
Lemma perceptron_zero_example_witness :
  Forall (fun w => b64_finite w = true) [float_of_int 7; float_of_int (-3)]
  /\ perceptron (F:=float) [of_int 0; of_int 0]
       [float_of_int 7; float_of_int (-3)] (of_dec 5 1)
     = Ok 0%Z.
Proof.
  assert (H1 : Forall (fun w => b64_finite w = true)
                 [float_of_int 7; float_of_int (-3)])
    by (repeat constructor).
  split; [exact H1|].
  exact (perceptron_zero_example [float_of_int 7; float_of_int (-3)]
           (of_dec 5 1) H1).
Defined.

Section FloatStuck.

Open Scope float_scope.

Lemma b64_mul_0_not_finite (x : float) :
  b64_finite x = false -> b64_nan (0 * x) = true.
Proof.
  unfold b64_finite, b64_nan. rewrite mul_spec.
  change (Prim2SF 0) with (S754_zero false).
  destruct (Prim2SF x); try discriminate; reflexivity.
Qed.

(** A number that is not above the double [c]: NaN, or at most [c]. *)
Lemma b64_not_above_add (c w x : float) :
  b64_nan c = false ->
  b64_nan w = true \/ PrimFloat.leb w c = true ->
  b64_nan x = true \/ PrimFloat.leb x 0 = true ->
  b64_nan (w + x) = true \/ PrimFloat.leb (w + x) c = true.
Proof.
  intros Nc Hw Hx.
  destruct (b64_nan (w + x)) eqn:N; [left; reflexivity|right].
  destruct (b64_add_value _ _ N) as (Nw & Nx & V).
  destruct Hw as [Hw|Hw]; [congruence|].
  destruct Hx as [Hx|Hx]; [congruence|].
  apply b64_leb_iff in Hw. destruct Hw as (_ & _ & Lw).
  apply b64_leb_iff in Hx. destruct Hx as (_ & _ & Lx).
  change (b64_value 0) with 0%Z in Lx.
  apply b64_leb_iff. repeat split; try assumption.
  rewrite V, <- (b64_round_value c). apply b64_round_mono. lia.
Qed.

(** The two products a learning rate at most 0 can be multiplied into. *)
Lemma b64_rate_times_0 (lr : float) :
  PrimFloat.leb lr 0 = true ->
  b64_nan (0 * lr) = true \/ PrimFloat.leb (0 * lr) 0 = true.
Proof.
  intros _. destruct (b64_finite lr) eqn:Fl.
  - right. destruct (b64_mul_0 lr Fl) as [Fm Vm].
    apply b64_leb_iff. repeat split; auto using b64_finite_not_nan.
    rewrite Vm. discriminate.
  - left. apply b64_mul_0_not_finite. exact Fl.
Qed.

Lemma b64_rate_times_1 (lr : float) :
  PrimFloat.leb lr 0 = true ->
  b64_nan (1 * lr) = true \/ PrimFloat.leb (1 * lr) 0 = true.
Proof. intros H. right. rewrite b64_mul_1. exact H. Qed.

(** With the second weight not above 0.001 the row [[0, 1]] does not
    fire at threshold 0.5. *)
Lemma float_or_row_1_silent (w0 w1 : float) :
  b64_nan w1 = true \/ PrimFloat.leb w1 (float_of_dec 1 3) = true ->
  PrimFloat.leb (float_of_dec 5 1)
    (0 + 0 * w0 + w1 + float_of_dec 2 1 * 1) = false.
Proof.
  intros Hw.
  destruct (PrimFloat.leb (float_of_dec 5 1)
              (0 + 0 * w0 + w1 + float_of_dec 2 1 * 1)) eqn:E;
    [exfalso|reflexivity].
  apply b64_leb_iff in E. destruct E as (_ & Na & L).
  destruct (b64_add_value _ _ Na) as (Nd & Nb & Va).
  destruct (b64_add_value _ _ Nd) as (Nz & Nw & Vd).
  destruct (b64_add_value _ _ Nz) as (_ & Nm & Vz).
  destruct (b64_mul_0 w0 (b64_mul_0_finite w0 Nm)) as [_ Vm].
  destruct Hw as [Hw|Hw]; [congruence|].
  apply b64_leb_iff in Hw. destruct Hw as (_ & _ & Lw).
  rewrite Vm in Vz. change (b64_value 0) with 0%Z in Vz.
  cbn [Z.add] in Vz. rewrite b64_round_0 in Vz.
  rewrite Vz in Vd. cbn [Z.add] in Vd. rewrite Vd in Va. rewrite Va in L.
  assert (M1 : (b64_round (b64_value w1)
                <= b64_round (b64_value (float_of_dec 1 3)))%Z)
    by (apply b64_round_mono; exact Lw).
  assert (M2 : (b64_round (b64_round (b64_value w1)
                           + b64_value (float_of_dec 2 1 * 1))
                <= b64_round (b64_round (b64_value (float_of_dec 1 3))
                              + b64_value (float_of_dec 2 1 * 1)))%Z)
    by (apply b64_round_mono; lia).
  rewrite (b64_round_value (float_of_dec 1 3)) in M2.
  assert (C : b64_value (float_of_dec 1 3 + float_of_dec 2 1 * 1)
              = b64_round (b64_value (float_of_dec 1 3)
                           + b64_value (float_of_dec 2 1 * 1)))
    by (apply b64_add_value; reflexivity).
  assert (D : (b64_value (float_of_dec 1 3 + float_of_dec 2 1 * 1)
               < b64_value (float_of_dec 5 1))%Z)
    by (apply b64_leb_false; reflexivity).
  lia.
Qed.

End FloatStuck.

Section FloatStuckLoop.

Open Scope float_scope.

(** What a learning rate at most 0 adds to a weight: the rate itself, or
    its product by a zero. *)
Lemma b64_rate_product (z lr : float) :
  PrimFloat.leb lr 0 = true ->
  b64_finite z = true /\ b64_value z = 0%Z \/ z = 1 ->
  b64_nan (z * lr) = true \/ PrimFloat.leb (z * lr) 0 = true.
Proof.
  intros Hlr [[Fz Vz]|E]; [|subst z; apply b64_rate_times_1; exact Hlr].
  destruct (b64_nan (z * lr)) eqn:N; [left; reflexivity|right].
  apply b64_leb_iff. repeat split; try assumption; try reflexivity.
  change (b64_value 0) with 0%Z.
  revert N Fz Vz. unfold b64_nan, b64_finite, b64_value. rewrite mul_spec.
  destruct (Prim2SF z) as [s|s| |s m e] eqn:Ez; try discriminate.
  - destruct (Prim2SF lr); cbn; intros; try discriminate; lia.
  - intros _ _ V. exfalso.
    pose proof (Prim2SF_valid z) as Vz. rewrite Ez in Vz.
    destruct (b64_sv_finite s m e Vz) as [Hpos _].
    cbn [b64_sv] in V. destruct s; cbn [cond_Zopp] in V; lia.
Qed.

Lemma float_or_stuck_step (w1 lr : float) (b0 b1 b2 b3 : bool) :
  PrimFloat.leb lr 0 = true ->
  b64_nan w1 = true \/ PrimFloat.leb w1 (float_of_dec 1 3) = true ->
  let w1' :=
    delta_rule (F:=float) (if b3 then 1 else 0) 1 lr (of_int 1)
      (delta_rule (if b2 then 1 else 0) 1 lr (of_int 0)
         (delta_rule (if b1 then 1 else 0) 1 lr (of_int 1)
            (delta_rule (if b0 then 1 else 0) 0 lr (of_int 0) w1))) in
  b64_nan w1' = true \/ PrimFloat.leb w1' (float_of_dec 1 3) = true.
Proof.
  intros Hlr Hw. cbv zeta. unfold delta_rule.
  cbn [nadd nmul of_int float_Num].
  destruct b0, b1, b2, b3; cbn [Z.sub Z.add Z.opp Z.pos_sub];
    repeat (apply b64_not_above_add; [reflexivity| |]);
    try exact Hw;
    (apply b64_rate_product;
     [exact Hlr|first [left; split; reflexivity|right; reflexivity]]).
Qed.

(** With a learning rate at most 0 and the second weight not above 0.001,
    no batch prints the labels of the logical or. *)
Lemma float_or_stuck (lr : float) (n : nat) :
  PrimFloat.leb lr 0 = true ->
  forall (w0 w1 : float) (out : list (event float)) (o : list Z),
    b64_nan w1 = true \/ PrimFloat.leb w1 (float_of_dec 1 3) = true ->
    In o (printed_outputs
            (fst (batch_loop (F:=float) sample_data expected_results
                    (of_dec 5 1) lr n [w0; w1] out))) ->
    In o (printed_outputs out) \/ o <> expected_results.
Proof.
  intros Hlr. induction n as [|n IH]; intros w0 w1 out o Hw Hin.
  - left. exact Hin.
  - pose proof (float_outputs_2 w0 w1 (float_of_dec 5 1)) as Ho.
    rewrite (float_or_row_1_silent w0 w1 Hw) in Ho.
    unfold expected_results in Hin. cbn [of_dec float_Num] in Hin.
    rewrite (loop_step_2 n w0 w1 _ lr _ _ _ _ 0 1 1 1 out Ho) in Hin.
    apply IH in Hin.
    + destruct Hin as [Hin|Hne]; [|right; exact Hne].
      rewrite printed_outputs_app in Hin. apply in_app_or in Hin.
      destruct Hin as [Hin|Hin]; [left; exact Hin|right].
      cbn [printed_outputs In] in Hin. destruct Hin as [<-|[]].
      unfold expected_results.
      destruct (PrimFloat.leb _ _); discriminate.
    + exact (float_or_stuck_step w1 lr _ false _ _ Hlr Hw).
Qed.

End FloatStuckLoop.

(** X11: on the logical-or data with threshold 0.5, on binary64, a
    learning rate of zero or below never converges when the second
    initial weight is at most 0.001, whatever the first weight is: the row
    [[0, 1]] never fires, so no batch of any run prints the labels. *)
Theorem or_never_converges_nonpositive_rate (w0 w1 lr : float) (n : Z) :
  PrimFloat.leb w1 (of_dec 1 3) = true ->
  PrimFloat.leb lr (of_int 0) = true ->
  batches_to_converge (F:=float) sample_data expected_results [w0; w1]
    (of_dec 5 1) n lr = None.
Proof.
  intros Hw Hlr. unfold batches_to_converge.
  apply first_converged_none. intros o Ho.
  rewrite train_perceptron_trace in Ho.
  destruct (float_or_stuck lr (Z.to_nat n) Hlr w0 w1 [] o (or_intror Hw) Ho)
    as [[]|Hne].
  exact Hne.
Qed.

(** The recorded weights and the learning rate -1, ten batches. *)
Lemma or_never_converges_nonpositive_rate_witness :
  PrimFloat.leb (float_of_dec 65487 8) (of_dec 1 3) = true
  /\ PrimFloat.leb (float_of_int (-1)) (of_int 0) = true
  /\ batches_to_converge (F:=float) sample_data expected_results
       recorded_weights (of_dec 5 1) 10 (float_of_int (-1)) = None.
Proof.
  assert (H1 : PrimFloat.leb (float_of_dec 65487 8) (of_dec 1 3) = true)
    by reflexivity.
  assert (H2 : PrimFloat.leb (float_of_int (-1)) (of_int 0) = true)
    by reflexivity.
  split; [exact H1|]. split; [exact H2|].
  exact (or_never_converges_nonpositive_rate (float_of_dec 74888 8)
           (float_of_dec 65487 8) (float_of_int (-1)) 10 H1 H2).
Defined.


(** X15: an exception in [adjust_weights] leaves the caller's objects as
    they were.  In the store, when the example object is longer than the
    weights object, the call raises [IndexError], and every object that
    existed before the call, the example and the weights among them, is
    unchanged. *)
Theorem adjust_weights_raise_preserves {F : Type} {num : Num F}
    (observed expected : Z) (gi iw : Heap.loc) (learningRate : F)
    (s : Heap.store F) :
  (gi < Heap.next s)%nat -> (iw < Heap.next s)%nat ->
  (length (Heap.cells s iw) < length (Heap.cells s gi))%nat ->
  exists s',
    Heap.adjust_weights observed expected gi iw learningRate s
    = (s', Raise IndexError)
    /\ preserved s s'
    /\ Heap.cells s' gi = Heap.cells s gi
    /\ Heap.cells s' iw = Heap.cells s iw.
Proof.
  intros Hgi Hiw Hlen.
  destruct (store_adjust_weights observed expected gi iw learningRate s
              Hgi Hiw) as (s' & Hpres & Hrun).
  rewrite adjust_weights_eq in Hrun.
  destruct (Nat.leb_spec (length (Heap.cells s gi))
              (length (Heap.cells s iw))); [lia|].
  exists s'. split; [exact Hrun|]. split; [exact Hpres|].
  split; apply Hpres; assumption.
Qed.

(** A store of two objects: an example of three entries at address 0 and
    weights of two entries at address 1. *)
Lemma adjust_weights_raise_preserves_witness :
  (0 < 2)%nat /\ (1 < 2)%nat
  /\ exists s',
       Heap.adjust_weights (F:=float) 0 1 0%nat 1%nat (of_int 1)
         (Heap.Store
            (fun l => match l with
                      | O => [of_int 1; of_int 2; of_int 3]
                      | _ => [of_int 1; of_int 2]
                      end) 2%nat)
       = (s', Raise IndexError)
       /\ Heap.cells s' 1%nat = [of_int 1; of_int 2].
Proof.
  assert (H1 : (0 < 2)%nat) by (repeat constructor).
  assert (H2 : (1 < 2)%nat) by (repeat constructor).
  split; [exact H1|]. split; [exact H2|].
  destruct (adjust_weights_raise_preserves (F:=float) 0 1 0%nat 1%nat
              (of_int 1)
              (Heap.Store
                 (fun l => match l with
                           | O => [of_int 1; of_int 2; of_int 3]
                           | _ => [of_int 1; of_int 2]
                           end) 2%nat) H1 H2 (le_n 3))
    as (s' & Hrun & _ & _ & Hiw).
  exists s'. split; [exact Hrun | exact Hiw].
Defined.
